(** * Verification of the TTS voice-cloning helper scripts

    A shallow embedding of the data-preparation, launch, monitoring and
    inference scripts of the repository, and the properties their
    specification states about them.

    Layout: Part I holds the embedding (one module per script), Part II the
    lemmas and theorems.

    Conventions of the embedding
    - A Python [str] is a list of Unicode code points ([N]).  The character
      classes of CPython ([str.isspace], the [\w] and [\s] classes of [re])
      are written out for ASCII; their value on code points from 128 on comes
      from the Unicode database, which is taken as an interface
      ([UnicodeDB]).
    - A statement that may raise returns a [result] (any exception, the
      operator's interrupt included) or an [outcome] (a subclass of
      [Exception]); a [try] statement is a [match] on that value, and a
      dictionary or a file changed before the exception stays changed.
    - Calls into librosa, soundfile, numpy and TTS, and the floating-point
      arithmetic on samples, stay behind interfaces ([AudioLib], [TTS_api],
      [Synthesizer]): a property is proved for every behaviour of theirs.
    - Console output ([print]) is not part of the state, except where a
      property is about it. *)

From Stdlib Require Import ZArith NArith QArith Ascii String.
From stdpp Require Import base option list strings gmap sorting.

Set Warnings "-clear-no-such-hyp".

(* ===================================================================== *)
(** * Part I: the embedding                                               *)
(* ===================================================================== *)

(** ** Python values shared by the scripts *)

(** The subclasses of [Exception] the scripts can meet. *)
Inductive error : Type :=
| ZeroDivisionError
| UnboundLocalError
| IndexError
| ValueError
| FileNotFoundError
| UnicodeEncodeError
| OtherError (code : N).   (* any other [Exception] raised by a callee *)

(** What a statement can raise: an [Exception], which [except Exception]
    and a bare [except] catch, or [KeyboardInterrupt], which only
    [except KeyboardInterrupt] and a bare [except] catch. *)
Inductive exn : Type :=
| KeyboardInterrupt
| Exc (e : error).

Inductive result (A : Type) : Type :=
| Return (a : A)
| Raise (e : exn).
Arguments Return {A} a.
Arguments Raise {A} e.

#[global] Instance result_ret : MRet result := fun A a => Return a.
#[global] Instance result_bind : MBind result := fun A B k r =>
  match r with
  | Return a => k a
  | Raise e => Raise e
  end.

(** The outcome of a call into a library (librosa, soundfile, numpy, TTS) or
    of a Python operation that fails with an [Exception]: the embedding of
    the per-item work of the batch scripts.  An operator interrupt is not a
    failure of an item and has no place in this type. *)
Inductive outcome (A : Type) : Type :=
| Ok (a : A)
| Fails (e : error).
Arguments Ok {A} a.
Arguments Fails {A} e.

#[global] Instance outcome_ret : MRet outcome := fun A a => Ok a.
#[global] Instance outcome_bind : MBind outcome := fun A B k r =>
  match r with
  | Ok a => k a
  | Fails e => Fails e
  end.

(** A Python string: its code points. *)
Definition str : Type := list N.

(** An ASCII literal of the source as a [str]. *)
Definition py (s : string) : str :=
  (fun a => N_of_ascii a) <$> list_ascii_of_string s.

(** What CPython takes from the Unicode database for the code points from
    128 on: [Py_UNICODE_ISSPACE] and [Py_UNICODE_ISALNUM]. *)
Class UnicodeDB : Type := {
  uni_isspace : N → bool;
  uni_isalnum : N → bool
}.

(** The database restricted to ASCII: no further space, no further letter. *)
Definition ascii_db : UnicodeDB :=
  {| uni_isspace := fun _ => false; uni_isalnum := fun _ => false |}.

Module PyStr.
Local Open Scope N_scope.
Section WithUnicode.
Context `{UnicodeDB}.

(** [str.isspace] on one character, also the class [\s] of [re]:
    TAB LF VT FF CR, FS GS RS US, SPACE for ASCII. *)
Definition isspace (c : N) : bool :=
  if c <? 128
  then ((9 <=? c) && (c <=? 13)) || ((28 <=? c) && (c <=? 32))
  else uni_isspace c.

(** The class [\w] of [re]: alphanumeric or underscore. *)
Definition isword (c : N) : bool :=
  if c <? 128
  then ((48 <=? c) && (c <=? 57)) || ((65 <=? c) && (c <=? 90))
       || ((97 <=? c) && (c <=? 122)) || (c =? 95)
  else uni_isalnum c.

(** [s.startswith(pre)] *)
Fixpoint startswith (pre s : str) : bool :=
  match pre, s with
  | [], _ => true
  | _ :: _, [] => false
  | p :: pre', c :: s' => (p =? c) && startswith pre' s'
  end.

(** [sub in s] *)
Fixpoint contains (sub s : str) : bool :=
  startswith sub s ||
  match s with
  | [] => false
  | _ :: s' => contains sub s'
  end.

(** [s.lstrip()], [s.strip()] *)
Fixpoint lstrip (s : str) : str :=
  match s with
  | [] => []
  | c :: s' => if isspace c then lstrip s' else s
  end.

Definition strip (s : str) : str := rev (lstrip (rev (lstrip s))).

(** [s.split(sep)] for a non-empty [sep], as the first piece and the list
    of the pieces after it (the result of [split] is never empty).  [skip]
    counts the characters of a separator still to be passed over. *)
Fixpoint split_go (sep : str) (skip : nat) (s : str) : str * list str :=
  match s with
  | [] => ([], [])
  | c :: s' =>
      match skip with
      | S k => split_go sep k s'
      | O =>
          if startswith sep s
          then let '(p, ps) := split_go sep (pred (length sep)) s' in
               ([], p :: ps)
          else let '(p, ps) := split_go sep O s' in (c :: p, ps)
      end
  end.

Definition split (sep s : str) : list str :=
  let '(p, ps) := split_go sep O s in p :: ps.

(** [s.split(sep, 1)]: the text before the first [sep] and the text after
    it, when there is one. *)
Fixpoint split_once (sep : str) (s : str) : option (str * str) :=
  if startswith sep s then Some ([], drop (length sep) s)
  else match s with
       | [] => None
       | c :: s' =>
           match split_once sep s' with
           | Some (a, b) => Some (c :: a, b)
           | None => None
           end
       end.

(** [s.split()]: the maximal runs of non-space characters. *)
Fixpoint split_ws_go (s : str) : str * list str :=
  match s with
  | [] => ([], [])
  | c :: s' =>
      let '(w, ws) := split_ws_go s' in
      if isspace c
      then ([], match w with [] => ws | _ => w :: ws end)
      else (c :: w, ws)
  end.

Definition split_ws (s : str) : list str :=
  let '(w, ws) := split_ws_go s in
  match w with [] => ws | _ => w :: ws end.

(** [sep.join(parts)] *)
Fixpoint join (sep : str) (parts : list str) : str :=
  match parts with
  | [] => []
  | [p] => p
  | p :: ps => p ++ sep ++ join sep ps
  end.

(** [s.replace(old, new)] for a non-empty [old]: the occurrences of [old]
    found from left to right, without overlap. *)
Fixpoint replace_go (old new : str) (skip : nat) (s : str) : str :=
  match s with
  | [] => []
  | c :: s' =>
      match skip with
      | S k => replace_go old new k s'
      | O =>
          if startswith old s
          then new ++ replace_go old new (pred (length old)) s'
          else c :: replace_go old new O s'
      end
  end.

Definition replace (old new s : str) : str := replace_go old new O s.

(** [s.endswith(suf)] *)
Definition endswith (suf s : str) : bool := startswith (rev suf) (rev s).

(** [xs[i]] on a list: [IndexError] out of range. *)
Definition index {A} (xs : list A) (i : nat) : outcome A :=
  match xs !! i with
  | Some x => Ok x
  | None => Fails IndexError
  end.

(** [s <= t] on strings: the order of the code points, the first
    difference deciding. *)
Fixpoint leb (s t : str) : bool :=
  match s, t with
  | [], _ => true
  | _ :: _, [] => false
  | a :: s', b :: t' =>
      if a <? b then true else if b <? a then false else leb s' t'
  end.

Definition le (s t : str) : Prop := leb s t = true.

#[global] Instance le_dec : RelDecision le.
Proof. intros s t. unfold le. apply _. Defined.

End WithUnicode.
End PyStr.

(** [Path(dir).glob("*.wav")] over the names of the entries of a directory:
    the names that end in [.wav]. *)
Definition glob_wav (listing : list str) : list str :=
  filter (fun name => PyStr.endswith (py ".wav") name = true) listing.

(** [sorted(paths)] for paths of one directory: by name. *)
Definition sorted (names : list str) : list str := merge_sort PyStr.le names.

(** ** The Data Validator: [scripts/tools/validate_data.py] *)

Module Validator.

(** One row of the data frame read from [metadata.csv].  A missing
    transcript (NaN in pandas) is [None]. *)
Record row : Type := { filename : str; transcript : option str }.

(** The entries of the local lists [issues] and [warnings].  The source
    stores a formatted message; the embedding keeps the kind of the message
    and the numbers formatted into it. *)
Inductive issue : Type :=
| Insufficient (samples : nat)
| Mismatch (metadata_entries audio_files : nat).

Inductive warning : Type :=
| Limited (samples : nat)
| DuplicateTranscripts (rows : nat).

#[global] Instance issue_eq_dec : EqDecision issue.
Proof. solve_decision. Defined.
#[global] Instance warning_eq_dec : EqDecision warning.
Proof. solve_decision. Defined.

(** The line printed by the final assessment. *)
Inductive banner : Type := NotReady | ReadyWithWarnings | ReadyToTrain.

Record assessment : Type := {
  ready : bool;                 (* the returned value *)
  issues : list issue;
  warnings : list warning;
  reported : banner
}.

(** [df[df.duplicated('transcript', keep=False)]]: the rows whose transcript
    occurs in more than one row. *)
Definition duplicated_keep_false (df : list row) : list row :=
  filter (fun r =>
            2 ≤ length (filter (fun r' => transcript r' = transcript r) df))
         df.

Definition validate_training_readiness
    (df : list row) (audio_dir : list str) : assessment :=
  let issues0 : list issue := [] in
  let warnings0 : list warning := [] in
  (* Check minimum data requirements *)
  let '(issues1, warnings1) :=
    if length df <? 50 then
      (issues0 ++ [Insufficient (length df)], warnings0)
    else if length df <? 100 then
      (issues0, warnings0 ++ [Limited (length df)])
    else (issues0, warnings0) in
  (* Check audio quality requirements *)
  let audio_files := glob_wav audio_dir in
  let issues2 :=
    if length audio_files =? length df then issues1
    else issues1 ++ [Mismatch (length df) (length audio_files)] in
  (* Check for duplicate transcripts *)
  let duplicate_transcripts := duplicated_keep_false df in
  let warnings2 :=
    if 0 <? length duplicate_transcripts
    then warnings1 ++ [DuplicateTranscripts (length duplicate_transcripts)]
    else warnings1 in
  {| ready := length issues2 =? 0;
     issues := issues2;
     warnings := warnings2;
     reported := match issues2, warnings2 with
                 | _ :: _, _ => NotReady
                 | [], _ :: _ => ReadyWithWarnings
                 | [], [] => ReadyToTrain
                 end |}.

End Validator.

(** ** The Training Launcher: [scripts/training/arm_max_quality_training.py] *)

Module Launcher.

(** The statements of the [try] block of [start_maximum_quality_training],
    in program order.  [Header k] is the [k]-th [f.write] of the header;
    [Stream i] is the pass of the [for] loop on the child's [i]-th output
    line; [StreamEnd] is the read that meets the end of the child's
    output. *)
Inductive stage : Type :=
| Chdir            (* os.chdir("/ssd/tts_project") *)
| Popen            (* process = subprocess.Popen(...) *)
| OpenLog          (* open(log_file, 'w') *)
| Header (k : nat) (* f.write(...) of the k-th part of the header *)
| Stream (i : nat) (* print(line.rstrip()); f.write(line); f.flush() *)
| StreamEnd
| Wait.            (* process.wait() *)

#[global] Instance stage_eq_dec : EqDecision stage.
Proof. solve_decision. Defined.

(** What the operating system, the child and the operator do during one run:
    the first exception raised inside the [try] block, if any, with the
    statement it is raised in (an [OSError] of a system call, a
    [KeyboardInterrupt] delivered while the statement runs); the lines the
    child writes; its exit code. *)
Record world : Type := {
  fault : option (stage * exn);
  log_header : list str;     (* what the four header writes are given,
                                with date and command *)
  child_output : list str;
  child_returncode : Z
}.

(** The state the function works on: the local variable [process] (bound or
    not), whether [terminate] was sent to the child, and the log file: what
    was written to it, in order, once this run has opened it, which
    empties it.  The [with] block closes the file when it is left, also by
    an exception, so that what was written is in the file. *)
Record state : Type := {
  process_bound : bool;
  terminated : bool;
  log_file : option (list str)
}.

Definition initial : state :=
  {| process_bound := false; terminated := false; log_file := None |}.

(** A statement of the [try] block: it raises when the world says so. *)
Definition at_stage (w : world) (st : stage) : result unit :=
  match fault w with
  | Some (st', e) => if decide (st = st') then Raise e else Return ()
  | None => Return ()
  end.

Definition append_log (line : str) (s : state) : state :=
  {| process_bound := process_bound s; terminated := terminated s;
     log_file := Some (default [] (log_file s) ++ [line]) |}.

(** The writes of the header, from the [k]-th on. *)
Fixpoint write_header (w : world) (k : nat) (parts : list str) (s : state)
  : result unit * state :=
  match parts with
  | [] => (Return (), s)
  | part :: rest =>
      match at_stage w (Header k) with
      | Raise e => (Raise e, s)
      | Return _ => write_header w (S k) rest (append_log part s)
      end
  end.

(** The [for line in process.stdout] loop. *)
Fixpoint stream (w : world) (i : nat) (lines : list str) (s : state)
  : result unit * state :=
  match lines with
  | [] => (at_stage w StreamEnd, s)
  | line :: rest =>
      match at_stage w (Stream i) with
      | Raise e => (Raise e, s)
      | Return _ => stream w (S i) rest (append_log line s)
      end
  end.

(** The body of the [try] block: the returned value, or the exception that
    leaves the block, with the state at that point. *)
Definition try_body (w : world) (s : state) : result bool * state :=
  match at_stage w Chdir with
  | Raise e => (Raise e, s)
  | Return _ =>
  match at_stage w Popen with
  | Raise e => (Raise e, s)
  | Return _ =>
  let s := {| process_bound := true; terminated := terminated s;
              log_file := log_file s |} in
  match at_stage w OpenLog with
  | Raise e => (Raise e, s)
  | Return _ =>
  let s := {| process_bound := process_bound s; terminated := terminated s;
              log_file := Some [] |} in
  match write_header w 0 (log_header w) s with
  | (Raise e, s) => (Raise e, s)
  | (Return _, s) =>
  match stream w 0 (child_output w) s with
  | (Raise e, s) => (Raise e, s)
  | (Return _, s) =>
  match at_stage w Wait with
  | Raise e => (Raise e, s)
  | Return _ =>
      if (child_returncode w =? 0)%Z then (Return true, s)
      else (Return false, s)
  end end end end end end.

(** [process.terminate()] in the handler: reading the local [process]
    before it was assigned raises [UnboundLocalError]. *)
Definition terminate (s : state) : result unit * state :=
  if process_bound s
  then (Return (), {| process_bound := true; terminated := true;
                      log_file := log_file s |})
  else (Raise (Exc UnboundLocalError), s).

Definition start_maximum_quality_training (w : world)
  : result bool * state :=
  match try_body w initial with
  | (Return b, s) => (Return b, s)
  | (Raise KeyboardInterrupt, s) =>        (* except KeyboardInterrupt: *)
      match terminate s with
      | (Return _, s) => (Return false, s)
      | (Raise e, s) => (Raise e, s)
      end
  | (Raise (Exc _), s) => (Return false, s) (* except Exception as e: *)
  end.

(** The functions [main] calls before the training; each returns a boolean
    or raises, depending on the file system and on the child processes it
    starts. *)
Record checks : Type := {
  validate_environment : result bool;
  validate_training_data : result bool;
  setup_training_directories : result bool;
  start_tensorboard : result bool
}.

Definition main (c : checks) (w : world) : result bool :=
  ok ← validate_environment c;
  if negb ok then Return false else
  ok ← validate_training_data c;
  if negb ok then Return false else
  ok ← setup_training_directories c;
  if negb ok then Return false else
  _ ← start_tensorboard c;
  fst (start_maximum_quality_training w).

(** [sys.exit(0 if success else 1)]; an exception that leaves [main] ends
    the interpreter with a non-zero status (130 for [KeyboardInterrupt]). *)
Definition exit_status (r : result bool) : Z :=
  match r with
  | Return true => 0
  | Return false => 1
  | Raise KeyboardInterrupt => 130
  | Raise _ => 1
  end.

Definition script (c : checks) (w : world) : Z := exit_status (main c w).

(** The statements a run passes through when nothing is raised, the
    header is written in [h] parts and the child writes [n] lines. *)
Definition stages (h n : nat) : list stage :=
  [Chdir; Popen; OpenLog] ++ (Header <$> seq 0 h) ++ (Stream <$> seq 0 n)
  ++ [StreamEnd; Wait].

(** The fault of the world lies on the path of the run. *)
Definition fault_reached (w : world) : Prop :=
  match fault w with
  | None => False
  | Some (st, _) =>
      st ∈ stages (length (log_header w)) (length (child_output w))
  end.

End Launcher.

(** ** The Inference Driver: [scripts/test_model.py],
       [scripts/batch_synthesis_mac.py] *)

Module Inference.

(** What one run of a driver did: the texts it handed to the synthesizer
    (numbered from 1, as [enumerate(texts, 1)] does) and the numbers of the
    output files it saved ([test_sample_{i}.wav], [sample_{i:03d}.wav]). *)
Record run : Type := {
  attempted : list (nat * str);
  saved : list nat
}.

(** [enumerate(texts, 1)] *)
Definition enumerate1 (texts : list str) : list (nat * str) :=
  zip (seq 1 (length texts)) texts.

Definition no_run : run := {| attempted := []; saved := [] |}.

Definition attempt (i : nat) (text : str) (r : run) : run :=
  {| attempted := attempted r ++ [(i, text)]; saved := saved r |}.

Definition save (i : nat) (r : run) : run :=
  {| attempted := attempted r; saved := saved r ++ [i] |}.

(** *** [test_model_synthesis] *)

(** The external library as this function uses it: whether the import
    succeeds, what constructing [TTS(...)] does, and what the [i]-th call
    [tts.tts_to_file(text, file)] does. *)
Record TTS_api : Type := {
  import_TTS : bool;
  TTS_init : outcome unit;
  tts_to_file : nat → str → outcome unit
}.

(** The [for] loop, which stands inside the [try] block: an exception of
    [tts_to_file] leaves the loop. *)
Fixpoint generate (api : TTS_api) (i : nat) (texts : list str) (r : run)
  : outcome unit * run :=
  match texts with
  | [] => (Ok (), r)
  | text :: rest =>
      let r := attempt i text r in
      match tts_to_file api i text with
      | Fails e => (Fails e, r)
      | Ok _ => generate api (S i) rest (save i r)
      end
  end.

Definition test_model_synthesis (api : TTS_api) (test_texts : list str)
  : bool * run :=
  if negb (import_TTS api) then (false, no_run)   (* except ImportError *)
  else
    let body :=
      match TTS_init api with
      | Fails e => (Fails e, no_run)
      | Ok _ =>
          match generate api 1 test_texts no_run with
          | (Fails e, r) => (Fails e, r)
          | (Ok _, r) => (Ok true, r)
          end
      end in
    match body with
    | (Ok b, r) => (b, r)
    | (Fails _, r) => (false, r)                  (* except Exception as e *)
    end.

(** *** [batch_synthesize] *)

(** The synthesizer as this function uses it: the [i]-th call
    [synthesizer.tts(text)] returns a waveform (its content is of no
    concern here) or raises, and so does [synthesizer.save_wav]. *)
Record Synthesizer : Type := {
  Synthesizer_init : outcome unit;
  tts : nat → str → outcome unit;
  save_wav : nat → outcome unit
}.

(** One pass of the loop: the [try] block stands inside the loop. *)
Definition synthesize_one (sy : Synthesizer) (i : nat) (text : str) (r : run)
  : run :=
  let r := attempt i text r in
  let body :=
    match tts sy i text with
    | Fails e => (Fails e, r)
    | Ok _ =>
        match save_wav sy i with
        | Fails e => (Fails e, r)
        | Ok _ => (Ok (), save i r)
        end
    end in
  match body with
  | (Ok _, r) => r
  | (Fails _, r) => r                         (* except Exception as e: print *)
  end.

(** Pass [i] reaches the end of its [try] block. *)
Definition succeeds (sy : Synthesizer) (it : nat * str) : bool :=
  match tts sy it.1 it.2, save_wav sy it.1 with
  | Ok _, Ok _ => true
  | _, _ => false
  end.

Fixpoint synthesize_all (sy : Synthesizer) (i : nat) (lines : list str)
    (r : run) : run :=
  match lines with
  | [] => r
  | text :: rest => synthesize_all sy (S i) rest (synthesize_one sy i text r)
  end.

Section WithUnicode.
Context `{UnicodeDB}.

(** [[line.strip() for line in f if line.strip() and not line.startswith('#')]] *)
Definition read_texts (file_lines : list str) : list str :=
  PyStr.strip <$>
    filter (fun line => PyStr.strip line ≠ [] ∧
                        PyStr.startswith (py "#") line = false) file_lines.

(** [text_file] is [None] when the file does not exist. *)
Definition batch_synthesize (sy : Synthesizer) (text_file : option (list str))
  : outcome bool * run :=
  match Synthesizer_init sy with
  | Fails e => (Fails e, no_run)
  | Ok _ =>
      match text_file with
      | None => (Ok false, no_run)
      | Some file_lines =>
          (Ok true, synthesize_all sy 1 (read_texts file_lines) no_run)
      end
  end.

End WithUnicode.
End Inference.

(** ** The Audio Preprocessor: [scripts/process_audio.py] *)

Module Preprocessor.

Definition target_sample_rate : N := 22050.

(** The libraries the script calls.  [audio] is a numpy array of samples and
    [sample] a floating-point number; their arithmetic stays behind this
    interface. *)
Class AudioLib (audio sample : Type) : Type := {
  (* [librosa.load(audio_file, sr=None)]: the samples and their rate *)
  librosa_load : str → outcome (audio * N);
  (* [librosa.resample(audio, orig_sr=, target_sr=)] *)
  librosa_resample : audio → N → N → outcome audio;
  (* [librosa.effects.trim(audio, top_db=20)], first component *)
  librosa_effects_trim : audio → outcome audio;
  (* [np.abs(audio).max()]: [ValueError] on an empty array *)
  np_abs_max : audio → outcome sample;
  (* [peak > 0] *)
  gt_zero : sample → bool;
  (* [audio * (0.707 / peak)] *)
  scale_to_minus_3dB : audio → sample → audio;
  (* [sf.write(output_file, audio, rate, subtype='PCM_16')] *)
  sf_write : str → audio → N → outcome unit;
  (* [len(audio)] *)
  len : audio → nat
}.

Section WithLibrary.
Context {audio sample : Type} `{AudioLib audio sample}.

(** What the loop prints for a file. *)
Inductive event : Type :=
| Processing (name : str)
| ShowInfo (name : str)
| ErrorProcessing (name : str) (e : error).

(** The state of the loop: the console, the calls of [sf.write] that were
    made (file name in the output directory, samples, rate) and
    [total_duration]. *)
Record state : Type := {
  console : list event;
  sf_write_calls : list (str * audio * N);
  total_duration : Q
}.

Definition initial : state :=
  {| console := []; sf_write_calls := []; total_duration := 0%Q |}.

(** The statements of the [try] block before the output is written: load,
    resample when the rate differs, trim, normalize the peak. *)
Definition prepare (name : str) : outcome audio :=
  '(a, original_sr) ← librosa_load name;
  a ← (if (original_sr =? target_sample_rate)%N then Ok a
       else librosa_resample a original_sr target_sample_rate);
  a ← librosa_effects_trim a;
  peak ← np_abs_max a;
  Ok (if gt_zero peak then scale_to_minus_3dB a peak else a).

(** One pass of the loop. *)
Definition process_file (name : str) (s : state) : state :=
  let s := {| console := console s ++ [Processing name];
              sf_write_calls := sf_write_calls s;
              total_duration := total_duration s |} in
  match prepare name with
  | Fails e =>                                   (* except Exception as e *)
      {| console := console s ++ [ErrorProcessing name e];
         sf_write_calls := sf_write_calls s;
         total_duration := total_duration s |}
  | Ok a =>
      let s := {| console := console s;
                  sf_write_calls :=
                    sf_write_calls s ++ [(name, a, target_sample_rate)];
                  total_duration := total_duration s |} in
      match sf_write name a target_sample_rate with
      | Fails e =>                               (* except Exception as e *)
          {| console := console s ++ [ErrorProcessing name e];
             sf_write_calls := sf_write_calls s;
             total_duration := total_duration s |}
      | Ok _ =>
          let duration := (Z.of_nat (len a) # 22050)%Q in
          {| console := console s ++ [ShowInfo name];
             sf_write_calls := sf_write_calls s;
             total_duration := (total_duration s + duration)%Q |}
      end
  end.

(** The files the loop has started on, in order, as the console shows. *)
Definition started (s : state) : list str :=
  omap (fun ev => match ev with Processing n => Some n | _ => None end)
       (console s).

(** The files the loop has reported an error for. *)
Definition failed (s : state) : list str :=
  omap (fun ev => match ev with ErrorProcessing n _ => Some n | _ => None end)
       (console s).

(** A pass of the loop on [name] leaves its [try] block by an exception. *)
Definition raises (name : str) : bool :=
  match prepare name with
  | Fails _ => true
  | Ok a => match sf_write name a target_sample_rate with
            | Fails _ => true
            | Ok _ => false
            end
  end.

Definition process_files (audio_files : list str) (s : state) : state :=
  foldl (fun s name => process_file name s) s audio_files.

(** [x / n] of Python: [ZeroDivisionError] when [n] is zero. *)
Definition truediv (x : Q) (n : nat) : result Q :=
  if (n =? 0)%nat then Raise (Exc ZeroDivisionError)
  else Return (x / inject_Z (Z.of_nat n))%Q.

(** The two numbers of the final summary. *)
Record summary : Type := {
  total_minutes : Q;
  average_seconds : Q
}.

(** The function from the listing of the raw audio directory on (the
    output directory exists at that point). *)
Definition process_audio_files (raw_audio_dir : list str)
  : result (state * summary) :=
  let audio_files := sorted (glob_wav raw_audio_dir) in
  let s := process_files audio_files initial in
  minutes ← truediv (total_duration s) 60;
  average ← truediv (total_duration s) (length audio_files);
  Return (s, {| total_minutes := minutes; average_seconds := average |}).

End WithLibrary.
End Preprocessor.

(** ** The Metadata Converter: [scripts/fix_metadata.py],
       [scripts/tools/create_metadata.py] *)

(** The part of the project directory the two scripts work on.  A text file
    is the text Python reads from it and writes to it. *)
Record project : Type := {
  (* the text files, by path *)
  text_files : gmap string str;
  (* [json.load] of [training.json]: the [filename] and the [text] of the
     entries of its [training_data] array; [None] when the file is absent *)
  training_json : option (list (str * str));
  (* the names of the entries of [voice_data/raw_audio], in the order the
     file system lists them *)
  raw_audio : list str
}.

Definition write_text (path : string) (content : str) (p : project)
  : project :=
  {| text_files := <[path := content]> (text_files p);
     training_json := training_json p;
     raw_audio := raw_audio p |}.

Module TextFile.
Local Open Scope N_scope.

(** Reading in text mode: [\r\n] and [\r] become [\n]. *)
Fixpoint universal_newlines (s : str) : str :=
  match s with
  | [] => []
  | c :: rest =>
      if c =? 13 then
        10 :: match rest with
              | c' :: rest' =>
                  if c' =? 10 then universal_newlines rest'
                  else universal_newlines rest
              | [] => universal_newlines rest
              end
      else c :: universal_newlines rest
  end.

(** The lines a file object yields, each with its [\n] when it has one:
    the line in progress and the lines after it. *)
Fixpoint lines_go (s : str) : str * list str :=
  match s with
  | [] => ([], [])
  | c :: s' =>
      let '(l, ls) := lines_go s' in
      if c =? 10 then ([c], match l with [] => ls | _ => l :: ls end)
      else (c :: l, ls)
  end.

Definition lines (content : str) : list str :=
  let '(l, ls) := lines_go (universal_newlines content) in
  match l with [] => ls | _ => l :: ls end.

End TextFile.

Module Converter.
Local Open Scope N_scope.
Section WithUnicode.
Context `{UnicodeDB}.

(** *** [fix_metadata.py] *)

Definition input_file : string := "/ssd/tts_project/voice_data/metadata.csv".
Definition output_file : string :=
  "/ssd/tts_project/voice_data/metadata_ljspeech.csv".

(** The characters that [[^\w\s.,!?-]] does not match. *)
Definition kept (c : N) : bool :=
  PyStr.isword c || PyStr.isspace c ||
  (c =? 46) || (c =? 44) || (c =? 33) || (c =? 63) || (c =? 45).

(** [re.sub(r'\s+', ' ', text)]: every maximal run of spaces becomes one
    [' ']; [in_run] tells that the character before was a space. *)
Fixpoint sub_space_runs (in_run : bool) (text : str) : str :=
  match text with
  | [] => []
  | c :: rest =>
      if PyStr.isspace c then
        if in_run then sub_space_runs true rest
        else 32 :: sub_space_runs true rest
      else c :: sub_space_runs false rest
  end.

Definition clean_and_normalize_text (text : str) : str :=
  let text := filter (fun c => kept c = true) text in
  let text := PyStr.strip (sub_space_runs false text) in
  text.

(** The three fields written for a line. *)
Record row : Type := {
  file_id : str;
  second_column : str;
  third_column : str
}.

(** [f"{file_id}|{cleaned_text}|{cleaned_text}\n"] *)
Definition render (r : row) : str :=
  file_id r ++ py "|" ++ second_column r ++ py "|" ++ third_column r ++ [10].

(** The body of the loop: the row written for a line, if any.  Unpacking
    the result of [split] raises [ValueError] unless it has two parts. *)
Definition convert_line (line : str) : outcome (option row) :=
  let line := PyStr.strip line in
  if PyStr.contains (py "|") line then
    match PyStr.split_once (py "|") line with
    | None => Fails ValueError
    | Some (filename, text) =>
        let file_id := PyStr.replace (py ".wav") [] filename in
        let cleaned_text := clean_and_normalize_text text in
        Ok (Some {| file_id := file_id;
                    second_column := cleaned_text;
                    third_column := cleaned_text |})
    end
  else Ok None.

Fixpoint convert (lines : list str) : outcome (list row) :=
  match lines with
  | [] => Ok []
  | line :: rest =>
      r ← convert_line line;
      rs ← convert rest;
      Ok (match r with Some r => r :: rs | None => rs end)
  end.

Definition fix_metadata_main (p : project) : outcome project :=
  match text_files p !! input_file with
  | None => Fails FileNotFoundError
  | Some content =>
      rows ← convert (TextFile.lines content);
      Ok (write_text output_file (concat (render <$> rows)) p)
  end.

(** *** [tools/create_metadata.py] *)

Definition metadata_csv : string := input_file.

(** The dictionary [filename_to_text] after the loop over [entries[:80]]:
    a later entry replaces an earlier one of the same file name. *)
Definition mapping (entries : list (str * str)) : gmap str str :=
  foldl (fun m e => <[e.1 := e.2]> m) ∅ (take 80 entries).

(** The transcript as written: newlines replaced, spaces collapsed. *)
Definition clean_transcript (transcript : str) : str :=
  let transcript :=
    PyStr.replace [13] [32] (PyStr.replace [10] [32] transcript) in
  PyStr.join [32] (PyStr.split_ws transcript).

(** The lines written, for the audio files in the order given. *)
Fixpoint metadata_lines (filename_to_text : gmap str str)
    (audio_files : list str) : list str :=
  match audio_files with
  | [] => []
  | filename :: rest =>
      match filename_to_text !! filename with
      | Some transcript =>
          (filename ++ py "|" ++ clean_transcript transcript ++ [10])
            :: metadata_lines filename_to_text rest
      | None => metadata_lines filename_to_text rest
      end
  end.

(** A text that a file opened with [encoding='utf-8'] can take: one
    without a surrogate code point (a string read by [json.load], and a
    file name that is not valid UTF-8, can hold one). *)
Definition encodable (text : str) : bool :=
  forallb (fun c => negb ((55296 <=? c) && (c <=? 57343))) text.

(** The calls [f.write(f"{filename}|{transcript}\n")] of the loop, in
    order: [UnicodeEncodeError] at the first line that cannot be encoded. *)
Fixpoint write_lines (lines : list str) : outcome unit :=
  match lines with
  | [] => Ok ()
  | line :: rest =>
      if encodable line then write_lines rest else Fails UnicodeEncodeError
  end.

(** [filename, transcript = line.strip().split('|', 1)] in the loop that
    shows the first entries: [ValueError] when the stripped line has no
    [|]. *)
Definition show_entry (line : str) : outcome unit :=
  match PyStr.split_once (py "|") (PyStr.strip line) with
  | Some _ => Ok ()
  | None => Fails ValueError
  end.

Fixpoint show_entries (lines : list str) : outcome unit :=
  match lines with
  | [] => Ok ()
  | line :: rest => _ ← show_entry line; show_entries rest
  end.

(** The function, from the opening of [training.json] on.  When it raises,
    the result does not keep what it has written to [metadata.csv] by
    then. *)
Definition create_metadata_from_json (p : project) : outcome project :=
  match training_json p with
  | None => Fails FileNotFoundError
  | Some entries =>
      let audio_files := sorted (glob_wav (raw_audio p)) in
      let filename_to_text := mapping entries in
      let written := metadata_lines filename_to_text audio_files in
      _ ← write_lines written;
      (* for i, line in enumerate(f): if i < 5: ... *)
      _ ← show_entries (take 5 (TextFile.lines (concat written)));
      Ok (write_text metadata_csv (concat written) p)
  end.

(** The identifiers of the rows of a normalized metadata file that
    [fix_metadata_main] writes from the project. *)
Definition written_ids (p : project) : list str :=
  match text_files p !! input_file with
  | None => []
  | Some content =>
      match convert (TextFile.lines content) with
      | Ok rows => file_id <$> rows
      | Fails _ => []
      end
  end.

(** What a run left in the text file [path], or the exception of the run. *)
Definition left_in (path : string) (r : outcome project)
  : outcome (option str) :=
  match r with
  | Ok q => Ok (text_files q !! path)
  | Fails e => Fails e
  end.

End WithUnicode.
End Converter.

(** ** The Training Monitor: [scripts/training/monitor_training.py] *)

Module Monitor.

(** A statement inside a [try] block of [parse_training_metrics]: it works
    on the dictionary [metrics], which keeps the assignments made before an
    exception. *)
Definition stmt (A : Type) : Type :=
  gmap string str → outcome A * gmap string str.

#[global] Instance stmt_ret : MRet stmt := fun A a m => (Ok a, m).
#[global] Instance stmt_bind : MBind stmt := fun A B k c m =>
  match c m with
  | (Ok a, m') => k a m'
  | (Fails e, m') => (Fails e, m')
  end.

(** An expression that may raise. *)
Definition eval {A} (o : outcome A) : stmt A := fun m => (o, m).

(** [metrics[key] = value] *)
Definition assign (key : string) (value : str) : stmt unit :=
  fun m => (Ok (), <[key := value]> m).

(** [try: body except: pass] *)
Definition try_except_pass (body : stmt unit)
  : gmap string str → gmap string str :=
  fun m => (body m).2.

(** [a, b = parts]: [ValueError] unless there are two parts. *)
Definition unpack2 {A} (parts : list A) : outcome (A * A) :=
  match parts with
  | [a; b] => Ok (a, b)
  | _ => Fails ValueError
  end.

(** A statement that only adds or replaces entries of the dictionary. *)
Definition keeps_keys {A} (c : stmt A) : Prop :=
  ∀ m k, is_Some (m !! k) → is_Some ((c m).2 !! k).

Definition NA : str := py "N/A".

(** A log in which each of the four kinds of line is cut short. *)
Definition truncated_log : str :=
  py "> EPOCH:" ++ [10%N] ++
  py "--> STEP: 1/2/3 -- GLOBAL_STEP: 7" ++ [10%N] ++
  py "| > loss:" ++ [10%N] ++
  py "> TRAINING (2024-05-01".

(** The fields of the dictionary the function starts from. *)
Definition fields : list string :=
  ["epoch"; "step"; "total_steps"; "loss"; "lr"; "step_time"; "grad_norm";
   "last_update"]%string.

Definition initial_metrics : gmap string str :=
  list_to_map ((fun k => (k, NA)) <$> fields).

Section WithUnicode.
Context `{UnicodeDB}.

(** The four [try] blocks. *)
Definition epoch_block (line : str) : stmt unit :=
  after ← eval (PyStr.index (PyStr.split (py "EPOCH:") line) 1);
  epoch_part ← eval (PyStr.index (PyStr.split_ws after) 0);
  assign "epoch" epoch_part.

Definition step_block (line : str) : stmt unit :=
  _ ← (if PyStr.contains (py "STEP:") line then
         after ← eval (PyStr.index (PyStr.split (py "STEP:") line) 1);
         before ← eval (PyStr.index (PyStr.split (py "--") after) 0);
         let step_part := PyStr.strip before in
         if PyStr.contains (py "/") step_part then
           '(current_step, total_steps) ←
             eval (unpack2 (PyStr.split (py "/") step_part));
           _ ← assign "step" (PyStr.strip current_step);
           assign "total_steps" (PyStr.strip total_steps)
         else mret ()
       else mret ());
  if PyStr.contains (py "GLOBAL_STEP:") line then
    after ← eval (PyStr.index (PyStr.split (py "GLOBAL_STEP:") line) 1);
    assign "global_step" (PyStr.strip after)
  else mret ().

Definition metric_block (line : str) : stmt unit :=
  after ← eval (PyStr.index (PyStr.split (py "| >") line) 1);
  let parts := PyStr.strip after in
  if PyStr.startswith (py "loss:") parts then
    value ← eval (PyStr.index (PyStr.split (py ":") parts) 1);
    loss_val ← eval (PyStr.index (PyStr.split_ws value) 0);
    assign "loss" loss_val
  else if PyStr.startswith (py "current_lr:") parts then
    value ← eval (PyStr.index (PyStr.split (py ":") parts) 1);
    assign "lr" (PyStr.strip value)
  else if PyStr.startswith (py "step_time:") parts then
    value ← eval (PyStr.index (PyStr.split (py ":") parts) 1);
    time_val ← eval (PyStr.index (PyStr.split_ws value) 0);
    assign "step_time" (time_val ++ py "s")
  else if PyStr.startswith (py "grad_norm:") parts then
    value ← eval (PyStr.index (PyStr.split (py ":") parts) 1);
    grad_val ← eval (PyStr.index (PyStr.split_ws value) 0);
    assign "grad_norm" grad_val
  else mret ().

Definition training_block (line : str) : stmt unit :=
  after ← eval (PyStr.index (PyStr.split (py "TRAINING (") line) 1);
  timestamp_part ← eval (PyStr.index (PyStr.split (py ")") after) 0);
  time_part ← eval (PyStr.index (PyStr.split_ws timestamp_part) 1);
  assign "last_update" time_part.

(** The body of the loop. *)
Definition process_line (line : str) (metrics : gmap string str)
  : gmap string str :=
  let line := PyStr.strip line in
  if PyStr.contains (py "EPOCH:") line then
    try_except_pass (epoch_block line) metrics
  else if PyStr.contains (py "-- GLOBAL_STEP:") line then
    try_except_pass (step_block line) metrics
  else if PyStr.contains (py "| >") line && PyStr.contains (py ":") line then
    try_except_pass (metric_block line) metrics
  else if PyStr.contains (py "TRAINING (") line then
    try_except_pass (training_block line) metrics
  else metrics.

Definition parse_training_metrics (log_content : str) : gmap string str :=
  let lines := PyStr.split [10%N] log_content in
  foldl (fun metrics line => process_line line metrics) initial_metrics lines.

End WithUnicode.
End Monitor.

(** ** The rest of the Data Validator: [validate_audio_files], [main] *)

Module Validation.

(** The audio directory as [validate_audio_files] sees it. *)
Record audio_dir : Type := {
  (* the names of its entries; [None] when the directory does not exist *)
  listing : option (list str);
  (* [os.path.exists(os.path.join(audio_dir, filename))] *)
  path_exists : str → bool;
  (* [sf.read(audio_path)]: [len(data)] and the sample rate *)
  sf_read : str → outcome (nat * nat)
}.

(** The four lists of the loop.  A duration is kept as the pair of the
    number of samples and the rate it is the quotient of. *)
Record audio_report : Type := {
  missing_files : list str;
  invalid_files : list (str * error);
  durations : list (nat * nat);
  sample_rates : list nat
}.

Definition no_report : audio_report :=
  {| missing_files := []; invalid_files := []; durations := [];
     sample_rates := [] |}.

(** [len(data) / sr] on two integers. *)
Definition duration_of (samples rate : nat) : outcome (nat * nat) :=
  if rate =? 0 then Fails ZeroDivisionError else Ok (samples, rate).

(** One pass of the loop over the rows, for a row whose file name is a
    string, as [Validator.row] has it (on a number or a missing value
    [os.path.join] raises outside the [try]). *)
Definition check_row (dir : audio_dir) (filename : str) (r : audio_report)
  : audio_report :=
  if negb (path_exists dir filename) then
    {| missing_files := missing_files r ++ [filename];
       invalid_files := invalid_files r;
       durations := durations r; sample_rates := sample_rates r |}
  else
    match '(samples, sr) ← sf_read dir filename;
          duration ← duration_of samples sr;
          Ok (duration, sr) with
    | Ok (duration, sr) =>
        {| missing_files := missing_files r;
           invalid_files := invalid_files r;
           durations := durations r ++ [duration];
           sample_rates := sample_rates r ++ [sr] |}
    | Fails e =>                                  (* except Exception as e *)
        {| missing_files := missing_files r;
           invalid_files := invalid_files r ++ [(filename, e)];
           durations := durations r; sample_rates := sample_rates r |}
    end.

(** The file can be read and its rate is not 0. *)
Definition readable (dir : audio_dir) (filename : str) : bool :=
  match sf_read dir filename with
  | Ok (_, sr) => negb (sr =? 0)
  | Fails _ => false
  end.

Definition check_rows (dir : audio_dir) (df : list Validator.row)
  : audio_report :=
  foldl (fun r row => check_row dir (Validator.filename row) r) no_report df.

(** The returned value; [None] stands for the early [return False] on a
    missing directory, which builds no report. *)
Definition validate_audio_files (dir : audio_dir) (df : list Validator.row)
  : bool * option audio_report :=
  match listing dir with
  | None => (false, None)
  | Some _ =>
      let r := check_rows dir df in
      ((length (missing_files r) =? 0) && (length (invalid_files r) =? 0),
       Some r)
  end.

(** [main]; [metadata] is the data frame that [validate_metadata] returns,
    [None] when it reports the metadata as invalid. *)
Definition main (metadata : option (list Validator.row)) (dir : audio_dir)
  : bool :=
  match metadata with
  | None => false
  | Some df =>
      if negb (validate_audio_files dir df).1 then false
      else
        Validator.ready
          (Validator.validate_training_readiness df
             (default [] (listing dir)))
  end.

(** [exit(0 if success else 1)] *)
Definition exit_code (metadata : option (list Validator.row))
    (dir : audio_dir) : Z :=
  if main metadata dir then 0%Z else 1%Z.

End Validation.

(** ** The rest of the Inference Driver: [find_best_checkpoint],
       [interactive_testing] *)

(** [str.lower] on a text that holds a code point from 128 on (there the
    result depends on the Unicode database, and for some letters on their
    neighbours). *)
Class UnicodeCase : Type := { uni_lower : str → str }.

Definition ascii_case : UnicodeCase := {| uni_lower := fun text => text |}.

Module InferenceTools.
Local Open Scope N_scope.

(** [max(checkpoint_files, key=lambda p: p.stat().st_mtime)]: the first
    file among those modified last. *)
Definition later (best x : str * Q) : str * Q :=
  if Qlt_le_dec best.2 x.2 then x else best.

(** [training_output] is [None] when the directory does not exist, else the
    files that [**/checkpoint_*.pth] matches, with their modification
    times. *)
Definition find_best_checkpoint (training_output : option (list (str * Q)))
  : option str :=
  match training_output with
  | None => None
  | Some [] => None
  | Some (c :: cs) => Some (foldl later c cs).1
  end.

Section WithUnicode.
Context `{UnicodeDB} `{UnicodeCase}.

(** [text.lower()]: on ASCII, the capital letters become small. *)
Definition lower (text : str) : str :=
  if forallb (fun c => c <? 128) text
  then (fun c => if (65 <=? c) && (c <=? 90) then c + 32 else c) <$> text
  else uni_lower text.

(** [text.lower() in ['quit', 'exit', 'q']] *)
Definition is_quit (text : str) : bool :=
  bool_decide (lower text ∈ [py "quit"; py "exit"; py "q"]).

(** The [while True] loop: [counter] numbers the next output file,
    [call] the next call of [tts_to_file], [inputs] are the lines the
    operator still types.  At the end of the input, [input] raises
    [EOFError], which the enclosing [try] turns into [False]. *)
Fixpoint interact (api : Inference.TTS_api) (counter call : nat)
    (inputs : list str) (saved : list nat) : bool * list nat :=
  match inputs with
  | [] => (false, saved)
  | line :: rest =>
      let text := PyStr.strip line in
      if is_quit text then (true, saved)
      else if bool_decide (text = []) then
        interact api counter call rest saved
      else
        match Inference.tts_to_file api call text with
        | Ok _ =>
            interact api (S counter) (S call) rest (saved ++ [counter])
        | Fails _ =>                             (* except Exception as e *)
            interact api counter (S call) rest saved
        end
  end.

(** The returned value and the numbers of the files [interactive_{n}.wav]
    that were saved, in order.  [makedirs] is what
    [os.makedirs(output_dir, exist_ok=True)] does. *)
Definition interactive_testing (api : Inference.TTS_api)
    (makedirs : outcome unit) (inputs : list str) : bool * list nat :=
  if negb (Inference.import_TTS api) then (false, [])
  else match Inference.TTS_init api with
       | Fails _ => (false, [])       (* except Exception as e *)
       | Ok _ =>
           match makedirs with
           | Fails _ => (false, [])   (* except Exception as e *)
           | Ok _ => interact api 1 1 inputs []
           end
       end.

End WithUnicode.
End InferenceTools.

(** ** The rest of the Training Monitor: [check_training_process],
       [get_latest_log_output], [get_training_files_info], and the report
       on the process in [monitor_training] *)

Module MonitorStatus.

(** The six log files, in the order of the source. *)
Definition log_files : list string :=
  ["/ssd/tts_project/training_proper.log";
   "/ssd/tts_project/training_current.log";
   "/ssd/tts_project/training_output_no_ssim.log";
   "/ssd/tts_project/training_output_fixed.log";
   "/ssd/tts_project/training_output.log";
   "/ssd/tts_project/training_progress.log"]%string.

(** The search for the most recently modified log file.  [mtime] gives
    [os.path.getmtime] of a file that exists, [None] for one that does
    not. *)
Fixpoint scan_logs (mtime : string → option Q) (files : list string)
    (latest_log : option string) (latest_time : Q) : option string * Q :=
  match files with
  | [] => (latest_log, latest_time)
  | log_file :: rest =>
      match mtime log_file with
      | Some t =>
          if Qlt_le_dec latest_time t
          then scan_logs mtime rest (Some log_file) t
          else scan_logs mtime rest latest_log latest_time
      | None => scan_logs mtime rest latest_log latest_time
      end
  end.

Definition latest_log (mtime : string → option Q) : option string :=
  (scan_logs mtime log_files None 0%Q).1.

(** [sorted(names)[-1]], as used for the latest run directory and for the
    latest checkpoint, on a list known not to be empty. *)
Definition latest_name (names : list str) : option str :=
  last (sorted names).

(** The three lists that [get_training_files_info] fills from the entries
    of the run directory. *)
Definition classify (items : list str)
  : list str * list str * list str :=
  foldl (fun '(checkpoints, config_files, logs) item =>
           if PyStr.endswith (py ".pth") item
           then (checkpoints ++ [item], config_files, logs)
           else if PyStr.endswith (py ".json") item
           then (checkpoints, config_files ++ [item], logs)
           else if PyStr.contains (py "log") item
                   || PyStr.contains (py "events") item
           then (checkpoints, config_files, logs ++ [item])
           else (checkpoints, config_files, logs))
        ([], [], []) items.

Section WithUnicode.
Context `{UnicodeDB}.

(** [ps_stdout] is the output of [ps aux], [None] when running it
    raises. *)
Definition check_training_process (ps_stdout : option str)
  : bool * list str :=
  match ps_stdout with
  | None => (false, [])                                       (* except: *)
  | Some stdout =>
      let training_lines :=
        filter (fun line => PyStr.contains (py "train_tts") line = true ∧
                            PyStr.contains (py "python") line = true)
               (PyStr.split [10%N] stdout) in
      ((0 <? length training_lines)%nat, training_lines)
  end.

(** The report on the first process in the loop of [monitor_training]:
    the CPU and the memory columns, when they are shown. *)
Definition process_usage (is_running : bool) (process_lines : list str)
  : outcome (option (str * str)) :=
  if is_running then
    match process_lines with
    | [] => Ok None
    | first_process :: _ =>
        let parts := PyStr.split_ws first_process in
        if (3 <=? length parts)%nat then
          cpu_usage ← PyStr.index parts 2;
          mem_usage ← PyStr.index parts 3;
          Ok (Some (cpu_usage, mem_usage))
        else Ok None
    end
  else Ok None.

End WithUnicode.
End MonitorStatus.

(** A statement of [parse_training_metrics] that assigns no key outside
    [keys]. *)
Definition touches_only (keys : list string) {A} (c : Monitor.stmt A)
  : Prop :=
  ∀ m k, k ∉ keys → (c m).2 !! k = m !! k.

(** A library for examples: audio is a list of integers, nothing fails,
    and the peak of an empty list is a [ValueError]. *)
Definition plain_lib : Preprocessor.AudioLib (list Z) Z :=
  {| Preprocessor.librosa_load := fun name => Ok ([1; -2; 3]%Z, 22050%N);
     Preprocessor.librosa_resample := fun a _ _ => Ok a;
     Preprocessor.librosa_effects_trim := fun a => Ok a;
     Preprocessor.np_abs_max := fun a =>
       match a with
       | [] => Fails ValueError
       | x :: r => Ok (foldl Z.max (Z.abs x) (Z.abs <$> r))
       end;
     Preprocessor.gt_zero := fun p => (0 <? p)%Z;
     Preprocessor.scale_to_minus_3dB := fun a _ => a;
     Preprocessor.sf_write := fun _ _ _ => Ok ();
     Preprocessor.len := fun a => length a |}.

(* ===================================================================== *)
(** * Part II: lemmas and theorems                                         *)
(* ===================================================================== *)

(** ** Python strings *)

Section PyStrFacts.
Local Open Scope N_scope.

Lemma leb_refl (s : str) : PyStr.leb s s = true.
Proof.
  induction s as [|a s IH]; simpl; [done|].
  by rewrite N.ltb_irrefl.
Qed.

#[global] Instance le_total : Total PyStr.le.
Proof.
  unfold PyStr.le. intros s. induction s as [|a s IH]; intros [|b t]; simpl;
    auto.
  destruct (N.ltb_spec a b), (N.ltb_spec b a); auto; lia.
Qed.

#[global] Instance le_antisymm : AntiSymm (=) PyStr.le.
Proof.
  unfold PyStr.le. intros s. induction s as [|a s IH]; intros [|b t]; simpl;
    try done.
  destruct (N.ltb_spec a b), (N.ltb_spec b a); try done; try lia.
  intros H1 H2. assert (a = b) as -> by lia. f_equal. by apply IH.
Qed.

#[global] Instance le_trans : Transitive PyStr.le.
Proof.
  unfold PyStr.le. intros s. induction s as [|a s IH]; intros [|b t] [|c u];
    simpl; try done.
  destruct (N.ltb_spec a b), (N.ltb_spec b a), (N.ltb_spec b c),
    (N.ltb_spec c b), (N.ltb_spec a c), (N.ltb_spec c a);
    try done; try lia.
  apply IH.
Qed.

(** Sorting forgets the order in which the file system listed the names. *)
Lemma sorted_permutation (l1 l2 : list str) :
  l1 ≡ₚ l2 → sorted l1 = sorted l2.
Proof.
  intros Hp. unfold sorted. apply (Sorted_unique PyStr.le).
  - apply Sorted_merge_sort, _.
  - apply Sorted_merge_sort, _.
  - by rewrite !merge_sort_Permutation.
Qed.

Lemma startswith_app (pre s t : str) :
  PyStr.startswith pre s = true → PyStr.startswith pre (s ++ t) = true.
Proof.
  revert s. induction pre as [|p pre IH]; intros [|c s]; simpl; try done.
  intros [-> ?]%andb_true_iff. rewrite IH; done.
Qed.

Lemma startswith_app_long (pre s t : str) :
  (length pre ≤ length s)%nat →
  PyStr.startswith pre (s ++ t) = PyStr.startswith pre s.
Proof.
  revert s. induction pre as [|p pre IH]; intros [|c s]; simpl; try done.
  - lia.
  - intros Hl. rewrite IH; [done|lia].
Qed.

(** [sub in s] decides whether [s.split(sub, 1)] has two parts. *)
Lemma contains_split_once (sep s : str) :
  PyStr.contains sep s = true ↔ is_Some (PyStr.split_once sep s).
Proof.
  induction s as [|c s IH]; simpl.
  - destruct (PyStr.startswith sep []); simpl; split; try done.
    all: intros [? ?]; done.
  - destruct (PyStr.startswith sep (c :: s)); simpl; [done|].
    rewrite IH. destruct (PyStr.split_once sep s) as [[a b]|]; simpl;
      split; try done; intros [? ?]; done.
Qed.

End PyStrFacts.

Example split_example :
  PyStr.split (py "--") (py "a--b----c") = [py "a"; py "b"; []; py "c"].
Proof. reflexivity. Qed.

Example replace_example :
  PyStr.replace (py ".wav") [] (py "take.wav.wav") = py "take".
Proof. reflexivity. Qed.

Example split_ws_example :
  @PyStr.split_ws ascii_db (py "  5.17512  (5.17512) ")
  = [py "5.17512"; py "(5.17512)"].
Proof. reflexivity. Qed.

(** ** Data Validator *)

Import Validator.

Lemma validator_issues_shape (df : list row) (audio_dir : list str) :
  issues (validate_training_readiness df audio_dir) =
    (if length df <? 50 then [Insufficient (length df)] else []) ++
    (if length (glob_wav audio_dir) =? length df then []
     else [Mismatch (length df) (length (glob_wav audio_dir))]).
Proof.
  unfold validate_training_readiness.
  destruct (length df <? 50); [|destruct (length df <? 100)];
    destruct (length (glob_wav audio_dir) =? length df); reflexivity.
Qed.

Lemma validator_ready_is_no_issue (df : list row) (audio_dir : list str) :
  ready (validate_training_readiness df audio_dir) = true ↔
  issues (validate_training_readiness df audio_dir) = [].
Proof.
  unfold validate_training_readiness.
  destruct (length df <? 50); [|destruct (length df <? 100)];
    destruct (length (glob_wav audio_dir) =? length df); simpl;
    split; (discriminate || reflexivity).
Qed.

(** C1. The verdict is "ready" exactly when there are at least 50 rows and
    as many rows as [.wav] files.  Fewer than 50 rows record the
    "insufficient data" issue, 50 to 99 rows record only the "limited data"
    warning, 100 rows or more record neither; a mismatch of the two counts
    records an issue; and the verdict is a function of the two counts alone,
    so that no warning (the one on duplicate transcripts included) changes
    it. *)
Theorem validator_readiness_verdict :
  ∀ (df : list row) (audio_dir : list str),
    let a := validate_training_readiness df audio_dir in
    let wavs := length (glob_wav audio_dir) in
    (ready a = true ↔ 50 ≤ length df ∧ length df = wavs)
    ∧ (Insufficient (length df) ∈ issues a ↔ length df < 50)
    ∧ (Limited (length df) ∈ warnings a ↔ 50 ≤ length df < 100)
    ∧ (Mismatch (length df) wavs ∈ issues a ↔ length df ≠ wavs)
    ∧ (∀ i, i ∈ issues a →
            i = Insufficient (length df) ∨ i = Mismatch (length df) wavs)
    ∧ (∀ w, w ∈ warnings a →
            w = Limited (length df) ∨ ∃ n, w = DuplicateTranscripts n)
    ∧ (∀ df' : list row,
          length df' = length df →
          ready (validate_training_readiness df' audio_dir) = ready a).
Proof.
  intros df audio_dir a wavs. subst a wavs.
  pose proof (validator_issues_shape df audio_dir) as Hi.
  pose proof (validator_ready_is_no_issue df audio_dir) as Hr.
  split_and!.
  - rewrite Hr, Hi.
    destruct (Nat.ltb_spec (length df) 50);
      destruct (Nat.eqb_spec (length (glob_wav audio_dir)) (length df));
      simpl; split; try discriminate; try lia; done.
  - rewrite Hi.
    destruct (Nat.ltb_spec (length df) 50);
      destruct (length (glob_wav audio_dir) =? length df);
      set_solver by lia.
  - unfold validate_training_readiness; simpl.
    destruct (Nat.ltb_spec (length df) 50);
      [|destruct (Nat.ltb_spec (length df) 100)];
      destruct (0 <? length (duplicated_keep_false df)); simpl;
      set_solver by lia.
  - rewrite Hi.
    destruct (Nat.eqb_spec (length (glob_wav audio_dir)) (length df));
      destruct (length df <? 50); set_solver.
  - rewrite Hi. intros i Hin.
    destruct (length df <? 50);
      destruct (length (glob_wav audio_dir) =? length df); set_solver.
  - unfold validate_training_readiness; simpl. intros w Hin.
    destruct (length df <? 50); [|destruct (length df <? 100)];
      destruct (0 <? length (duplicated_keep_false df)); simpl in Hin;
      set_solver.
  - intros df' Hlen.
    unfold validate_training_readiness; simpl. rewrite Hlen.
    destruct (length df <? 50); [|destruct (length df <? 100)];
      destruct (length (glob_wav audio_dir) =? length df); reflexivity.
Qed.

(** The boundaries of the data volume, with as many audio files as rows. *)
Example validator_boundaries :
  let df n := replicate n {| filename := py "a.wav"; transcript := None |} in
  let dir n := replicate n (py "a.wav") in
  ready (validate_training_readiness (df 49) (dir 49)) = false
  ∧ ready (validate_training_readiness (df 50) (dir 50)) = true
  ∧ warnings (validate_training_readiness (df 50) (dir 50))
    = [Limited 50; DuplicateTranscripts 50]
  ∧ ready (validate_training_readiness (df 99) (dir 99)) = true
  ∧ ready (validate_training_readiness (df 100) (dir 100)) = true
  ∧ warnings (validate_training_readiness (df 100) (dir 100))
    = [DuplicateTranscripts 100]
  ∧ ready (validate_training_readiness (df 100) (dir 99)) = false
  ∧ issues (validate_training_readiness (df 100) (dir 99))
    = [Mismatch 100 99].
Proof. vm_compute. split_and!; reflexivity. Qed.

(** ** Training Launcher *)

Import Launcher.

Lemma at_stage_cases (w : world) (st : stage) :
  (at_stage w st = Return () ∧ ∀ e, fault w ≠ Some (st, e)) ∨
  (∃ e, at_stage w st = Raise e ∧ fault w = Some (st, e)).
Proof.
  unfold at_stage. destruct (fault w) as [[st' e]|].
  - destruct (decide (st = st')) as [->|Hne].
    + right. eauto.
    + left. split; [done|]. congruence.
  - left. done.
Qed.

Lemma write_header_process_bound (w : world) (parts : list str) :
  ∀ k s, process_bound (write_header w k parts s).2 = process_bound s.
Proof.
  induction parts as [|l ls IH]; intros k s; simpl; [done|].
  destruct (at_stage w (Header k)); [|done]. by rewrite IH.
Qed.

Lemma write_header_cases (w : world) (parts : list str) :
  ∀ k s,
    (∃ s', write_header w k parts s = (Return (), s') ∧
           ∀ st e, fault w = Some (st, e) →
                   st ∉ Header <$> seq k (length parts)) ∨
    (∃ e s' st, write_header w k parts s = (Raise e, s') ∧
                fault w = Some (st, e) ∧
                st ∈ Header <$> seq k (length parts)).
Proof.
  induction parts as [|part rest IH]; intros k s; simpl.
  - left. exists s. split; [done|]. intros st e _ Hin.
    by apply not_elem_of_nil in Hin.
  - destruct (at_stage_cases w (Header k)) as [[-> Hn]|(e & -> & Hf)].
    + destruct (IH (S k) (append_log part s))
        as [(s' & -> & Hok)|(e & s' & st & -> & Hf & Hin)].
      * left. exists s'. split; [done|]. intros st e Hf.
        specialize (Hok st e Hf).
        assert (st ≠ Header k) by (intros ->; by eapply Hn).
        set_solver.
      * right. exists e, s', st. set_solver.
    + right. exists e, s, (Header k). set_solver.
Qed.

Lemma stream_process_bound (w : world) (lines : list str) :
  ∀ i s, process_bound (stream w i lines s).2 = process_bound s.
Proof.
  induction lines as [|l ls IH]; intros i s; simpl; [done|].
  destruct (at_stage w (Stream i)); [|done]. by rewrite IH.
Qed.

Lemma stream_cases (w : world) (lines : list str) :
  ∀ i s,
    (∃ s', stream w i lines s = (Return (), s') ∧
           ∀ st e, fault w = Some (st, e) →
                   st ∉ (Stream <$> seq i (length lines)) ++ [StreamEnd]) ∨
    (∃ e s' st, stream w i lines s = (Raise e, s') ∧
                fault w = Some (st, e) ∧
                st ∈ (Stream <$> seq i (length lines)) ++ [StreamEnd]).
Proof.
  induction lines as [|line rest IH]; intros i s; simpl.
  - destruct (at_stage_cases w StreamEnd) as [[-> Hn]|(e & -> & Hf)].
    + left. exists s. split; [done|]. intros st e Hf.
      rewrite list_elem_of_singleton. intros ->. by eapply Hn.
    + right. exists e, s, StreamEnd. set_solver.
  - destruct (at_stage_cases w (Stream i)) as [[-> Hn]|(e & -> & Hf)].
    + destruct (IH (S i) (append_log line s))
        as [(s' & -> & Hok)|(e & s' & st & -> & Hf & Hin)].
      * left. exists s'. split; [done|]. intros st e Hf.
        specialize (Hok st e Hf).
        assert (st ≠ Stream i) by (intros ->; by eapply Hn).
        set_solver.
      * right. exists e, s', st. set_solver.
    + right. exists e, s, (Stream i). set_solver.
Qed.

(** The [try] block either returns the test of the exit code, having met no
    exception, or raises the exception of the world at the statement the
    world names; [process] is unbound there exactly when that statement is
    one of the first two. *)
Lemma try_body_cases (w : world) :
  (∃ s, try_body w initial
        = (Return (bool_decide (child_returncode w = 0%Z)), s) ∧
        ¬ fault_reached w) ∨
  (∃ e s st, try_body w initial = (Raise e, s) ∧ fault w = Some (st, e) ∧
             fault_reached w ∧
             (process_bound s = false ↔ st = Chdir ∨ st = Popen)).
Proof.
  unfold try_body, fault_reached, stages.
  destruct (at_stage_cases w Chdir) as [[-> H1]|(e & -> & Hf)];
    [|right; exists e, initial, Chdir; rewrite Hf; set_solver].
  destruct (at_stage_cases w Popen) as [[-> H2]|(e & -> & Hf)];
    [|right; exists e, initial, Popen; rewrite Hf; set_solver].
  destruct (at_stage_cases w OpenLog) as [[-> H3]|(e & -> & Hf)].
  { set (s0 := {| process_bound := process_bound _; terminated := _;
                  log_file := Some [] |}).
    pose proof (write_header_process_bound w (log_header w) 0 s0) as Hpb0.
    destruct (write_header_cases w (log_header w) 0 s0)
      as [(s1 & Eh & Hokh)|(e & s1 & st & Eh & Hf & Hin)];
      rewrite Eh in *; simpl in Hpb0.
    2:{ right. exists e, s1, st. rewrite Hf.
        split_and!; [done..|set_solver|].
        rewrite Hpb0. simpl. split; [done|].
        intros [->| ->]; set_solver. }
    pose proof (stream_process_bound w (child_output w) 0 s1) as Hpb.
    destruct (stream_cases w (child_output w) 0 s1)
      as [(s' & Est & Hok)|(e & s' & st & Est & Hf & Hin)];
      rewrite Est in *; simpl in Hpb.
    - destruct (at_stage_cases w Wait) as [[-> H4]|(e & -> & Hf)].
      + left. exists s'. split.
        * destruct (Z.eqb_spec (child_returncode w) 0).
          -- by rewrite bool_decide_eq_true_2.
          -- by rewrite bool_decide_eq_false_2.
        * destruct (fault w) as [[st e]|] eqn:Ef; [|tauto].
          specialize (Hok st e eq_refl). specialize (Hokh st e eq_refl).
          specialize (H1 e). specialize (H2 e). specialize (H3 e).
          specialize (H4 e).
          intros Hin. apply Hok.
          rewrite !elem_of_app, !elem_of_cons in Hin.
          rewrite elem_of_app, list_elem_of_singleton.
          destruct Hin as [[->|[->|[->|Hin]]]|[Hin|[Hin|[->|[->|Hin]]]]];
            try done; try (by left); try (by right);
            by apply not_elem_of_nil in Hin.
      + right. exists e, s', Wait. rewrite Hf.
        split_and!; [done..|set_solver|].
        rewrite Hpb, Hpb0. simpl. split; [done|]. intros [|]; done.
    - right. exists e, s', st. rewrite Hf. split_and!; [done..|set_solver|].
      rewrite Hpb, Hpb0. simpl. split; [done|].
      intros [->| ->]; set_solver. }
  right. eexists e, _, OpenLog. rewrite Hf. split_and!; [done..|set_solver|].
  simpl. split; [done|]. intros [|]; done.
Qed.

Lemma try_body_true_iff (w : world) :
  (try_body w initial).1 = Return true ↔
  child_returncode w = 0%Z ∧ ¬ fault_reached w.
Proof.
  destruct (try_body_cases w) as [(s & -> & Hn)|(e & s & st & -> & _ & Hr & _)];
    simpl.
  - case_bool_decide; split; (done || tauto || (intros [? _]; done)).
  - split; [done|tauto].
Qed.

(** The function returns [True] exactly when the run meets no exception and
    the child's exit code is zero. *)
Lemma launcher_returns_true_iff (w : world) :
  (start_maximum_quality_training w).1 = Return true ↔
  child_returncode w = 0%Z ∧ ¬ fault_reached w.
Proof.
  rewrite <- try_body_true_iff. unfold start_maximum_quality_training.
  destruct (try_body w initial) as [[b|[|e]] s]; simpl; [done| |done].
  unfold terminate. destruct (process_bound s); simpl; done.
Qed.

(** A non-zero exit code and an [Exception] inside the [try] block make the
    function return [False]. *)
Lemma launcher_returns_false (w : world) :
  (∀ st, fault w ≠ Some (st, KeyboardInterrupt)) →
  child_returncode w ≠ 0%Z ∨ fault_reached w →
  (start_maximum_quality_training w).1 = Return false.
Proof.
  intros Hk Hor. unfold start_maximum_quality_training.
  destruct (try_body_cases w)
    as [(s & -> & Hn)|(e & s & st & -> & Hf & Hr & _)].
  - rewrite bool_decide_eq_false_2; [done|tauto].
  - destruct e as [|e]; [|done]. by specialize (Hk st).
Qed.

(** An interrupt delivered once [process] is assigned terminates the child
    and makes the function return [False]. *)
Lemma launcher_interrupt_after_spawn (w : world) (st : stage) :
  fault w = Some (st, KeyboardInterrupt) →
  fault_reached w → st ≠ Chdir → st ≠ Popen →
  ∃ s, start_maximum_quality_training w = (Return false, s) ∧
       terminated s = true.
Proof.
  intros Hf Hr H1 H2. unfold start_maximum_quality_training.
  destruct (try_body_cases w)
    as [(s & -> & Hn)|(e & s & st' & -> & Hf' & _ & Hpb)]; [done|].
  rewrite Hf in Hf'. injection Hf' as <- <-.
  unfold terminate. destruct (process_bound s).
  - eexists. split; done.
  - exfalso. destruct Hpb as [Hpb _]. destruct (Hpb eq_refl); done.
Qed.

(** The script exits with status 0 exactly when [main] returns [True]. *)
Lemma launcher_exit_status (c : checks) (w : world) :
  script c w = 0%Z ↔ main c w = Return true.
Proof.
  unfold script, exit_status.
  destruct (main c w) as [[]|[|e]]; split; done.
Qed.

(** C2. The operator's interrupt does not always make the function return
    [False]: delivered while [os.chdir] or [subprocess.Popen] runs, before
    the local variable [process] is assigned, it reaches the handler, whose
    [process.terminate()] raises [UnboundLocalError]; the function returns
    nothing and the script ends on the uncaught exception.  An interrupt
    delivered once the child is started makes the function return [False],
    as the claim says. *)
Theorem launcher_interrupt_before_spawn :
  ∀ (lines : list str) (rc : Z),
    let early st := {| fault := Some (st, KeyboardInterrupt);
                       log_header := []; child_output := lines;
                       child_returncode := rc |} in
    let passed := {| validate_environment := Return true;
                     validate_training_data := Return true;
                     setup_training_directories := Return true;
                     start_tensorboard := Return true |} in
    (start_maximum_quality_training (early Chdir)).1
      = Raise (Exc UnboundLocalError)
    ∧ (start_maximum_quality_training (early Popen)).1
      = Raise (Exc UnboundLocalError)
    ∧ (start_maximum_quality_training (early OpenLog)).1 = Return false
    ∧ main passed (early Popen) = Raise (Exc UnboundLocalError)
    ∧ script passed (early Popen) = 1%Z.
Proof. intros lines rc early passed. split_and!; reflexivity. Qed.

(** ** Inference Driver *)

Import Inference.

Lemma synthesize_one_attempted (sy : Synthesizer) i text r :
  attempted (synthesize_one sy i text r) = attempted r ++ [(i, text)].
Proof.
  unfold synthesize_one.
  destruct (tts sy i text); [destruct (save_wav sy i)|]; reflexivity.
Qed.

Lemma synthesize_one_saved (sy : Synthesizer) i text r :
  saved (synthesize_one sy i text r) =
  saved r ++ (if succeeds sy (i, text) then [i] else []).
Proof.
  unfold synthesize_one, succeeds; simpl.
  destruct (tts sy i text); [destruct (save_wav sy i)|]; simpl;
    by rewrite ?app_nil_r.
Qed.

Lemma synthesize_all_attempted (sy : Synthesizer) (texts : list str) :
  ∀ i r, attempted (synthesize_all sy i texts r) =
         attempted r ++ zip (seq i (length texts)) texts.
Proof.
  induction texts as [|t ts IH]; intros i r; simpl.
  - by rewrite app_nil_r.
  - rewrite IH, synthesize_one_attempted, <- app_assoc. reflexivity.
Qed.

Lemma synthesize_all_saved (sy : Synthesizer) (texts : list str) :
  ∀ i r, saved (synthesize_all sy i texts r) =
         saved r ++
         (filter (fun it => succeeds sy it = true)
                 (zip (seq i (length texts)) texts)).*1.
Proof.
  induction texts as [|t ts IH]; intros i r; simpl.
  - by rewrite app_nil_r.
  - rewrite IH, synthesize_one_saved, <- app_assoc. f_equal.
    rewrite filter_cons. destruct (succeeds sy (i, t)) eqn:E.
    + by rewrite decide_True.
    + by rewrite decide_False.
Qed.

(** In [generate], what is attempted is a run of consecutive texts from the
    first on; every attempt but the last one succeeded; and the loop ends
    normally only after attempting all texts. *)
Lemma generate_spec (api : TTS_api) (texts : list str) :
  ∀ i r,
    ∃ k, attempted (generate api i texts r).2
         = attempted r ++ take k (zip (seq i (length texts)) texts)
       ∧ k ≤ length texts
       ∧ (∀ j t, (j, t) ∈ take (pred k) (zip (seq i (length texts)) texts) →
                 tts_to_file api j t = Ok ())
       ∧ match (generate api i texts r).1 with
         | Ok _ => k = length texts ∧
                   ∀ j t, (j, t) ∈ zip (seq i (length texts)) texts →
                          tts_to_file api j t = Ok ()
         | Fails e => ∃ t, zip (seq i (length texts)) texts !! pred k
                           = Some (pred k + i, t) ∧ 0 < k ∧
                           tts_to_file api (pred k + i) t = Fails e
         end.
Proof.
  induction texts as [|t ts IH]; intros i r; simpl.
  - exists 0. rewrite app_nil_r. split_and!; try done; set_solver.
  - destruct (tts_to_file api i t) as [[]|e] eqn:E; simpl.
    + destruct (IH (S i) (save i (attempt i t r))) as (k & Ha & Hk & Hp & Hr).
      exists (S k). split_and!.
      * rewrite Ha. simpl. by rewrite <- app_assoc.
      * lia.
      * intros j t'. destruct k as [|k]; simpl; [set_solver|].
        rewrite elem_of_cons. intros [[= -> ->]|Hin]; [done|]. by apply Hp.
      * destruct (generate api (S i) ts (save i (attempt i t r))).1.
        -- destruct Hr as [-> Hall]. split; [done|].
           intros j t'. rewrite elem_of_cons.
           intros [[= -> ->]|Hin]; [done|]. by apply Hall.
        -- destruct Hr as (t' & Hl & Hpos & Hf).
           exists t'. destruct k as [|k]; [lia|]. simpl in *.
           replace (S (k + i)) with (k + S i) by lia.
           split_and!; [done|lia|done].
    + exists 1. split_and!.
      * simpl. by rewrite take_0.
      * simpl; lia.
      * simpl. set_solver.
      * exists t. simpl. split_and!; [done|lia|done].
Qed.

Lemma enumerate_lookup (texts : list str) (i m j : nat) (t : str) :
  zip (seq i (length texts)) texts !! m = Some (j, t) →
  j = i + m ∧ texts !! m = Some t.
Proof.
  intros Hz. apply lookup_zip_with_Some in Hz as (x & y & [= -> ->] & Hx & Hy).
  apply lookup_seq in Hx as [-> _]. done.
Qed.

Lemma test_model_synthesis_cases (api : TTS_api) (texts : list str) :
  test_model_synthesis api texts =
    if negb (import_TTS api) then (false, no_run)
    else match TTS_init api with
         | Fails _ => (false, no_run)
         | Ok _ =>
             (match (generate api 1 texts no_run).1 with
              | Ok _ => true
              | Fails _ => false
              end, (generate api 1 texts no_run).2)
         end.
Proof.
  unfold test_model_synthesis.
  destruct (import_TTS api); simpl; [|done].
  destruct (TTS_init api); [|done].
  destruct (generate api 1 texts no_run) as [[[]|e] r]; done.
Qed.

(** C3, as amended.  The loop of [batch_synthesize] attempts every text of
    the batch whatever fails before it, and saves one file, numbered as the
    text, for each text whose synthesis and saving succeed.  In
    [test_model_synthesis] the texts attempted are the first ones of the
    batch, no text is attempted after one that failed, and the function
    returns [True] only if the import, the loading of the model and every
    synthesis succeed. *)
Theorem inference_failure_isolation :
  ∀ (H : UnicodeDB) (sy : Synthesizer) (api : TTS_api)
    (file_lines texts : list str),
    (let r := (batch_synthesize sy (Some file_lines)).2 in
     match Synthesizer_init sy with
     | Ok _ =>
         attempted r = enumerate1 (read_texts file_lines) ∧
         saved r = (filter (fun it => succeeds sy it = true)
                           (enumerate1 (read_texts file_lines))).*1
     | Fails _ => attempted r = []
     end)
    ∧
    (let b := (test_model_synthesis api texts).1 in
     let r := (test_model_synthesis api texts).2 in
     (∃ k, attempted r = take k (enumerate1 texts))
     ∧ (∀ i t e j t',
          (i, t) ∈ attempted r → tts_to_file api i t = Fails e →
          (j, t') ∈ attempted r → j ≤ i)
     ∧ (b = true ↔
        import_TTS api = true ∧ TTS_init api = Ok () ∧
        ∀ i t, (i, t) ∈ enumerate1 texts → tts_to_file api i t = Ok ())).
Proof.
  intros H sy api file_lines texts. split.
  - unfold batch_synthesize, enumerate1.
    destruct (Synthesizer_init sy); simpl; [|done].
    by rewrite synthesize_all_attempted, synthesize_all_saved.
  - rewrite test_model_synthesis_cases. unfold enumerate1.
    destruct (import_TTS api); simpl.
    2:{ split_and!; [by exists 0|set_solver|]. split; [done|].
        intros (? & _); done. }
    destruct (TTS_init api) as [[]|e0]; simpl.
    2:{ split_and!; [by exists 0|set_solver|]. split; [done|].
        intros (_ & ? & _); done. }
    destruct (generate_spec api texts 1 no_run) as (k & Ha & Hk & Hp & Hr).
    simpl in Ha. rewrite Ha. split_and!.
    + by exists k.
    + intros i t e j t' Hi Hf Hj.
      apply elem_of_take in Hi as (m & Hm & Hmk).
      apply elem_of_take in Hj as (m' & Hm' & Hmk').
      apply enumerate_lookup in Hm' as [-> _].
      destruct (decide (m < pred k)) as [Hlt|Hge].
      * rewrite (Hp i t) in Hf; [done|].
        apply elem_of_take. eauto.
      * apply enumerate_lookup in Hm as [-> _]. lia.
    + destruct (generate api 1 texts no_run).1 as [[]|e].
      * destruct Hr as [-> Hall]. split; [done|]. done.
      * destruct Hr as (t & Hl & Hpos & Hf). split; [done|].
        intros (_ & _ & Hall). rewrite (Hall (pred k + 1) t) in Hf; [done|].
        eapply list_elem_of_lookup_2. done.
Qed.

(** C3 fails as stated: in [test_model_synthesis], with two texts of which
    the first fails, the second text is never handed to the synthesizer and
    no file is saved for it, although its synthesis would succeed. *)
Lemma inference_isolation_counterexample :
  let api := {| import_TTS := true;
                TTS_init := Ok ();
                tts_to_file := fun i _ =>
                  if (i =? 1)%nat then Fails (OtherError 0) else Ok () |} in
  let texts := [py "first text"; py "second text"] in
  (tts_to_file api 1 (py "first text") = Fails (OtherError 0))
  ∧ (tts_to_file api 2 (py "second text") = Ok ())
  ∧ ((2, py "second text") ∉ attempted (test_model_synthesis api texts).2)
  ∧ (2 ∉ saved (test_model_synthesis api texts).2)
  ∧ ((test_model_synthesis api texts).1 = false).
Proof.
  simpl. split_and!; try reflexivity.
  - vm_compute. intros Hin. apply list_elem_of_singleton in Hin.
    discriminate.
  - vm_compute. apply not_elem_of_nil.
Qed.

(** ** Audio Preprocessor *)

Import Preprocessor.

Section PreprocessorFacts.
Context {audio sample : Type} `{AudioLib audio sample}.

Lemma process_file_console (name : str) (s : state) :
  ∃ ev, console (process_file name s) = console s ++ [Processing name; ev] ∧
        match prepare name with
        | Fails e => ev = ErrorProcessing name e
        | Ok a => match sf_write name a target_sample_rate with
                  | Fails e => ev = ErrorProcessing name e
                  | Ok _ => ev = ShowInfo name
                  end
        end.
Proof.
  unfold process_file. destruct (prepare name) as [a|e]; simpl.
  - destruct (sf_write name a target_sample_rate); simpl;
      eexists; rewrite <- app_assoc; split; reflexivity.
  - eexists; rewrite <- app_assoc; split; reflexivity.
Qed.

Lemma process_file_writes (name : str) (s : state) :
  sf_write_calls (process_file name s) =
  sf_write_calls s ++
    match prepare name with
    | Ok a => [(name, a, target_sample_rate)]
    | Fails _ => []
    end.
Proof.
  unfold process_file. destruct (prepare name) as [a|e]; simpl.
  - destruct (sf_write name a target_sample_rate); reflexivity.
  - by rewrite app_nil_r.
Qed.

Lemma process_files_started (files : list str) :
  ∀ s, started (process_files files s) = started s ++ files.
Proof.
  unfold process_files.
  induction files as [|f fs IH]; intros s; simpl.
  - by rewrite app_nil_r.
  - rewrite IH. unfold started.
    destruct (process_file_console f s) as (ev & -> & Hev).
    rewrite omap_app. simpl.
    assert (match ev with Processing n => Some n | _ => None end
            = @None str) as ->.
    { destruct (prepare f); [destruct (sf_write f a target_sample_rate)|];
        by subst ev. }
    by rewrite <- app_assoc.
Qed.

Lemma process_files_writes (files : list str) :
  ∀ s name a r,
    (name, a, r) ∈ sf_write_calls (process_files files s) ↔
    (name, a, r) ∈ sf_write_calls s ∨
    (name ∈ files ∧ prepare name = Ok a ∧ r = target_sample_rate).
Proof.
  unfold process_files.
  induction files as [|f fs IH]; intros s name a r; simpl.
  - set_solver.
  - rewrite IH, process_file_writes, elem_of_app, elem_of_cons.
    destruct (prepare f) as [a'|e] eqn:E.
    + rewrite list_elem_of_singleton. split.
      * intros [[?|[= -> -> ->]]|(? & ? & ?)]; eauto 6.
      * intros [?|([->|?] & Hp & ->)]; eauto 6.
        rewrite E in Hp. injection Hp as ->. eauto.
    + split.
      * intros [[?|Hn]|(? & ? & ?)]; eauto 6. by apply not_elem_of_nil in Hn.
      * intros [?|([->|?] & Hp & ->)]; eauto 6. congruence.
Qed.

Lemma process_files_failed (files : list str) :
  ∀ s, failed (process_files files s) =
       failed s ++ filter (fun name => raises name = true) files.
Proof.
  unfold process_files.
  induction files as [|f fs IH]; intros s; simpl.
  - by rewrite app_nil_r.
  - rewrite IH. unfold failed.
    destruct (process_file_console f s) as (ev & -> & Hev).
    rewrite omap_app, filter_cons.
    assert (omap (fun ev => match ev with
                            | ErrorProcessing n _ => Some n
                            | _ => None
                            end) [Processing f; ev]
            = if raises f then [f] else []) as ->.
    { unfold raises.
      destruct (prepare f) as [a|e]; [destruct (sf_write f a _)|];
        by subst ev. }
    destruct (raises f).
    + rewrite decide_True by done. by rewrite <- app_assoc.
    + rewrite decide_False by done. by rewrite app_nil_r.
Qed.

(** C5. Every [.wav] file of the directory is started on, in sorted order,
    whatever happened to the files before it; the files reported as failed
    are exactly those whose pass raised; and [sf.write] is called for a
    file exactly when all the processing steps before it returned, so that
    a file on which loading, resampling, trimming or normalizing raises
    gets no output file. *)
Theorem preprocessor_failure_isolation :
  ∀ raw_audio_dir : list str,
    let audio_files := sorted (glob_wav raw_audio_dir) in
    let s := process_files audio_files initial in
    audio_files ≡ₚ glob_wav raw_audio_dir
    ∧ started s = audio_files
    ∧ failed s = filter (fun name => raises name = true) audio_files
    ∧ (∀ name a r, (name, a, r) ∈ sf_write_calls s ↔
                   name ∈ audio_files ∧ prepare name = Ok a ∧
                   r = target_sample_rate)
    ∧ (∀ name e, prepare name = Fails e →
                 ∀ a r, (name, a, r) ∉ sf_write_calls s).
Proof.
  intros raw_audio_dir audio_files s. subst s. split_and!.
  - apply merge_sort_Permutation.
  - by rewrite process_files_started.
  - by rewrite process_files_failed.
  - intros name a r. rewrite process_files_writes. simpl.
    split; [intros [Hn|?]; [by apply not_elem_of_nil in Hn|done]|by right].
  - intros name e He a r. rewrite process_files_writes. simpl.
    intros [Hn|(_ & Hp & _)]; [by apply not_elem_of_nil in Hn|congruence].
Qed.

(** C10. With at least one [.wav] file the function returns, every file
    having been started on, whatever the library calls do; with none it
    raises [ZeroDivisionError] at the average of the summary. *)
Theorem preprocessor_summary_division :
  ∀ raw_audio_dir : list str,
    match glob_wav raw_audio_dir with
    | [] => process_audio_files raw_audio_dir = Raise (Exc ZeroDivisionError)
    | _ :: _ =>
        ∃ s m, process_audio_files raw_audio_dir = Return (s, m) ∧
               started s = sorted (glob_wav raw_audio_dir)
    end.
Proof.
  intros raw_audio_dir. unfold process_audio_files.
  pose proof (Permutation_length
                (merge_sort_Permutation PyStr.le (glob_wav raw_audio_dir)))
    as Hlen.
  fold (sorted (glob_wav raw_audio_dir)) in Hlen.
  unfold truediv at 2. rewrite Hlen.
  destruct (glob_wav raw_audio_dir) as [|f fs] eqn:E; simpl.
  - reflexivity.
  - eexists _, _. split; [reflexivity|].
    by rewrite process_files_started.
Qed.

End PreprocessorFacts.

(** ** Metadata Converter *)

Import Converter.

Example convert_line_example :
  @convert_line ascii_db (py "henry_001.wav|Hello,   (big) world! ")
  = Ok (Some {| file_id := py "henry_001";
                second_column := py "Hello, big world!";
                third_column := py "Hello, big world!" |}).
Proof. vm_compute. reflexivity. Qed.

Example lines_example :
  TextFile.lines ([97; 13; 10; 98; 10; 10; 99]%N)
  = [[97; 10]; [98; 10]; [10]; [99]]%N.
Proof. vm_compute. reflexivity. Qed.

Section ConverterFacts.
Context `{UnicodeDB}.
Local Open Scope N_scope.

Lemma convert_line_spec (line : str) :
  convert_line line =
  match PyStr.split_once (py "|") (PyStr.strip line) with
  | Some (filename, text) =>
      Ok (Some {| file_id := PyStr.replace (py ".wav") [] filename;
                  second_column := clean_and_normalize_text text;
                  third_column := clean_and_normalize_text text |})
  | None => Ok None
  end.
Proof.
  unfold convert_line.
  pose proof (contains_split_once (py "|") (PyStr.strip line)) as Hc.
  destruct (PyStr.contains (py "|") (PyStr.strip line)).
  - destruct (proj1 Hc eq_refl) as [[f t] ->]. done.
  - destruct (PyStr.split_once (py "|") (PyStr.strip line)); [|done].
    destruct Hc as [_ Hc]. discriminate Hc. done.
Qed.

(** The loop never raises, and writes one row for each line that, stripped,
    contains a [|]. *)
Lemma convert_rows (lines : list str) :
  ∃ rows, convert lines = Ok rows ∧
          length rows =
          length (filter (fun l => PyStr.contains (py "|") (PyStr.strip l)
                                   = true) lines).
Proof.
  induction lines as [|l ls (rows & IH & Hlen)]; simpl.
  - by exists [].
  - rewrite IH, filter_cons. unfold convert_line at 1.
    pose proof (contains_split_once (py "|") (PyStr.strip l)) as Hc.
    destruct (PyStr.contains (py "|") (PyStr.strip l)).
    + destruct (proj1 Hc eq_refl) as [[f t] ->]. simpl.
      eexists. split; [done|]. simpl. lia.
    + simpl. exists rows. split; done.
Qed.

Lemma dot_wav_border (s : str) :
  s ≠ [] →
  PyStr.startswith [46; 119; 97; 118] s = false →
  PyStr.startswith [46; 119; 97; 118] (s ++ [46; 119; 97; 118]) = false.
Proof.
  intros Hne Hs.
  destruct (decide (4 ≤ length s)%nat) as [Hl|Hl].
  - by rewrite startswith_app_long.
  - destruct s as [|c1 [|c2 [|c3 [|c4 s]]]]; simpl in Hl; try lia; try done;
      cbn [PyStr.startswith app];
      repeat match goal with
             | |- context [?a =? ?b] => destruct (N.eqb_spec a b); subst
             end; simpl; try done.
Qed.

(** A name whose only [.wav] is its suffix loses exactly that suffix. *)
Lemma replace_dot_wav_suffix (stem : str) :
  PyStr.contains (py ".wav") stem = false →
  PyStr.replace (py ".wav") [] (stem ++ py ".wav") = stem.
Proof.
  change (py ".wav") with [46; 119; 97; 118]. unfold PyStr.replace.
  induction stem as [|c stem IH]; [reflexivity|].
  cbn [PyStr.contains]. intros [Hs Hc]%orb_false_iff.
  specialize (IH Hc).
  pose proof (dot_wav_border (c :: stem) ltac:(done) Hs) as Hb.
  change ((c :: stem) ++ [46; 119; 97; 118])
    with (c :: (stem ++ [46; 119; 97; 118])) in *.
  cbn [PyStr.replace_go]. rewrite Hb. by rewrite IH.
Qed.

Lemma write_text_twice (path : string) (c1 c2 : str) (p : project) :
  write_text path c2 (write_text path c1 p) = write_text path c2 p.
Proof. unfold write_text; simpl. by rewrite insert_insert_eq. Qed.

Lemma metadata_lines_sound (m : gmap str str) (files : list str) (l : str) :
  l ∈ metadata_lines m files →
  ∃ filename transcript,
    filename ∈ files ∧ m !! filename = Some transcript ∧
    l = filename ++ py "|" ++ clean_transcript transcript ++ [10].
Proof.
  induction files as [|f fs IH]; simpl.
  - intros Hin. by apply not_elem_of_nil in Hin.
  - destruct (m !! f) as [t|] eqn:E.
    + rewrite elem_of_cons. intros [->|Hin].
      * exists f, t. split_and!; [left|done|done].
      * destruct (IH Hin) as (f' & t' & ? & ? & ?).
        exists f', t'. split_and!; [by right|done|done].
    + intros Hin. destruct (IH Hin) as (f' & t' & ? & ? & ?).
      exists f', t'. split_and!; [by right|done|done].
Qed.

(** C7. A second run of either converter leaves the project as the first
    run left it; what a run writes does not depend on what the output file
    held before; and what [create_metadata.py] writes does not depend on
    the order in which the file system lists the audio directory. *)
Theorem converter_deterministic :
  ∀ p : project,
    (fix_metadata_main p ≫= fix_metadata_main = fix_metadata_main p)
    ∧ (∀ before : str,
         left_in output_file
           (fix_metadata_main (write_text output_file before p))
         = left_in output_file (fix_metadata_main p))
    ∧ (create_metadata_from_json p ≫= create_metadata_from_json
       = create_metadata_from_json p)
    ∧ (∀ before : str,
         left_in metadata_csv
           (create_metadata_from_json (write_text metadata_csv before p))
         = left_in metadata_csv (create_metadata_from_json p))
    ∧ (∀ listing : list str,
         listing ≡ₚ raw_audio p →
         create_metadata_from_json
           {| text_files := text_files p; training_json := training_json p;
              raw_audio := listing |}
         = match create_metadata_from_json p with
           | Ok q => Ok {| text_files := text_files q;
                           training_json := training_json q;
                           raw_audio := listing |}
           | Fails e => Fails e
           end).
Proof.
  intros p. split_and!.
  - unfold fix_metadata_main.
    destruct (text_files p !! input_file) as [content|] eqn:E; [|done].
    destruct (convert (TextFile.lines content)) as [rows|e] eqn:Ec; [|done].
    simpl. rewrite lookup_insert_ne by done. rewrite E, Ec. simpl.
    by rewrite write_text_twice.
  - intros before. unfold fix_metadata_main. simpl.
    rewrite lookup_insert_ne by done.
    destruct (text_files p !! input_file) as [content|]; [|done].
    destruct (convert (TextFile.lines content)) as [rows|e]; [|done].
    simpl. by rewrite !lookup_insert_eq.
  - unfold create_metadata_from_json.
    destruct (training_json p) as [entries|] eqn:E; [|done].
    cbv zeta.
    destruct (write_lines _) as [[]|e] eqn:Ew; [|done].
    destruct (show_entries _) as [[]|e] eqn:Es; [|done].
    unfold mbind, outcome_bind. simpl. rewrite E, Ew, Es.
    by rewrite write_text_twice.
  - intros before. unfold create_metadata_from_json. simpl.
    destruct (training_json p) as [entries|]; [|done].
    destruct (write_lines _) as [[]|e]; [|done].
    destruct (show_entries _) as [[]|e]; [|done].
    simpl. by rewrite !lookup_insert_eq.
  - intros listing Hp. unfold create_metadata_from_json. simpl.
    destruct (training_json p) as [entries|] eqn:E; [|done].
    rewrite (sorted_permutation (glob_wav listing) (glob_wav (raw_audio p)))
      by (unfold glob_wav; by rewrite Hp).
    destruct (write_lines _) as [[]|e]; [|done].
    destruct (show_entries _) as [[]|e]; [|done].
    unfold write_text. simpl. by rewrite E.
Qed.

End ConverterFacts.

(** C6. [fix_metadata.py] makes the identifier by removing every [.wav]
    of the file name field, under the comment "Remove .wav extension for
    LJSpeech format", and not the extension only.  Where the only [.wav]
    of the name is its suffix, the identifier re-suffixed with [.wav] is
    the name again; and every line that [create_metadata.py] writes starts
    with the name of a [.wav] file that is listed in the audio directory
    and has a transcript.  But the audio file [clip01.wav.wav], listed and
    with a transcript, gets its row from [create_metadata.py] and the
    identifier [clip01] from [fix_metadata.py], and [clip01.wav] is no file
    of the directory. *)
Theorem converter_roundtrip_inner_wav :
  (∀ (H : UnicodeDB) (line filename text stem : str),
      PyStr.split_once (py "|") (PyStr.strip line) = Some (filename, text) →
      filename = stem ++ py ".wav" →
      PyStr.contains (py ".wav") stem = false →
      ∃ r, convert_line line = Ok (Some r) ∧
           file_id r ++ py ".wav" = filename)
  ∧ (∀ (H : UnicodeDB) (entries : list (str * str)) (listing : list str)
       (l : str),
       l ∈ metadata_lines (mapping entries) (sorted (glob_wav listing)) →
       ∃ filename transcript,
         filename ∈ listing ∧
         PyStr.endswith (py ".wav") filename = true ∧
         mapping entries !! filename = Some transcript ∧
         l = filename ++ py "|" ++ clean_transcript transcript ++ [10%N])
  ∧ (let p := {| text_files := ∅;
                 training_json :=
                   Some [(py "clip01.wav.wav", py "Hello there")];
                 raw_audio := [py "clip01.wav.wav"] |} in
     ∃ p1, @create_metadata_from_json ascii_db p = Ok p1
           ∧ text_files p1 !! metadata_csv
             = Some (py "clip01.wav.wav|Hello there" ++ [10%N])
           ∧ @written_ids ascii_db p1 = [py "clip01"]
           ∧ (py "clip01" ++ py ".wav") ∉ raw_audio p).
Proof.
  split_and!.
  - intros H line filename text stem Hs -> Hc.
    rewrite convert_line_spec, Hs. eexists. split; [done|]. simpl.
    by rewrite replace_dot_wav_suffix.
  - intros H entries listing l Hin.
    apply metadata_lines_sound in Hin as (f & t & Hf & Hm & ->).
    exists f, t. split_and!; try done.
    + unfold sorted in Hf. rewrite merge_sort_Permutation in Hf.
      unfold glob_wav in Hf. by apply list_elem_of_filter in Hf as [_ ?].
    + unfold sorted in Hf. rewrite merge_sort_Permutation in Hf.
      unfold glob_wav in Hf. by apply list_elem_of_filter in Hf as [? _].
  - eexists. split; [vm_compute; reflexivity|]. split_and!.
    + vm_compute. reflexivity.
    + vm_compute. reflexivity.
    + vm_compute. intros Hin. apply list_elem_of_singleton in Hin.
      discriminate.
Qed.

(** C8. What the loop writes for a line: the second field is the cleaned
    transcript, as the third is, and not the transcript as read; and every
    [.wav] of the file name is removed, wherever it stands.  At the line
    [henry_001.wav|Hello,   (big) world!] the transcript read is
    [Hello,   (big) world!] and the second field written is
    [Hello, big world!]; at [my.wave_01.wav|Hi] the identifier written is
    [mye_01]. *)
Theorem converter_second_column_is_cleaned :
  (∀ (H : UnicodeDB) (line : str),
      convert_line line =
      match PyStr.split_once (py "|") (PyStr.strip line) with
      | Some (filename, text) =>
          Ok (Some {| file_id := PyStr.replace (py ".wav") [] filename;
                      second_column := clean_and_normalize_text text;
                      third_column := clean_and_normalize_text text |})
      | None => Ok None
      end)
  ∧ (@convert_line ascii_db (py "henry_001.wav|Hello,   (big) world!")
     = Ok (Some {| file_id := py "henry_001";
                   second_column := py "Hello, big world!";
                   third_column := py "Hello, big world!" |}))
  ∧ (py "Hello, big world!" ≠ py "Hello,   (big) world!")
  ∧ (@convert_line ascii_db (py "my.wave_01.wav|Hi")
     = Ok (Some {| file_id := py "mye_01";
                   second_column := py "Hi";
                   third_column := py "Hi" |})).
Proof.
  split; [intros H line; apply convert_line_spec|].
  vm_compute. split_and!; (reflexivity || discriminate).
Qed.

(** ** Training Monitor *)

Import Monitor.

Example parse_example :
  let m := @parse_training_metrics ascii_db
             (py " > EPOCH: 3/1000" ++ [10%N] ++
              py "   --> STEP: 15/19 -- GLOBAL_STEP: 815" ++ [10%N] ++
              py "     | > loss: 5.17512  (5.17512)" ++ [10%N] ++
              py "     | > step_time: 1.25  (1.3)" ++ [10%N] ++
              py " > TRAINING (2024-05-01 12:30:00)") in
  m !! "epoch"%string = Some (py "3/1000")
  ∧ m !! "step"%string = Some (py "15")
  ∧ m !! "total_steps"%string = Some (py "19")
  ∧ m !! "global_step"%string = Some (py "815")
  ∧ m !! "loss"%string = Some (py "5.17512")
  ∧ m !! "step_time"%string = Some (py "1.25s")
  ∧ m !! "lr"%string = Some (py "N/A")
  ∧ m !! "last_update"%string = Some (py "12:30:00").
Proof. vm_compute. split_and!; reflexivity. Qed.

Section MonitorFacts.
Context `{UnicodeDB}.

Lemma keeps_keys_eval {A} (o : outcome A) : keeps_keys (eval o).
Proof. by intros m k. Qed.

Lemma keeps_keys_ret {A} (a : A) : keeps_keys (mret a).
Proof. by intros m k. Qed.

Lemma keeps_keys_assign key value : keeps_keys (assign key value).
Proof.
  intros m k Hk. unfold assign; simpl.
  rewrite lookup_insert_is_Some. destruct (decide (key = k)); auto.
Qed.

Lemma keeps_keys_bind {A B} (c : stmt A) (k : A → stmt B) :
  keeps_keys c → (∀ a, keeps_keys (k a)) → keeps_keys (c ≫= k).
Proof.
  intros Hc Hk m key Hin. unfold mbind, stmt_bind.
  specialize (Hc m key Hin).
  destruct (c m) as [[a|e] m']; simpl in *; [by apply Hk|done].
Qed.

Ltac keeps_keys :=
  repeat first
    [ apply keeps_keys_bind; [|intros ?]
    | apply keeps_keys_eval
    | apply keeps_keys_ret
    | apply keeps_keys_assign
    | match goal with
      | |- keeps_keys (if ?b then _ else _) => destruct b
      | |- keeps_keys (let '(_, _) := ?p in _) => destruct p
      | |- keeps_keys (match ?p with (_, _) => _ end) => destruct p
      end ].

Lemma blocks_keep_keys (line : str) :
  keeps_keys (epoch_block line) ∧ keeps_keys (step_block line) ∧
  keeps_keys (metric_block line) ∧ keeps_keys (training_block line).
Proof.
  unfold epoch_block, step_block, metric_block, training_block.
  split_and!; keeps_keys.
Qed.

Lemma process_line_keeps_keys (line : str) (m : gmap string str) (k : string) :
  is_Some (m !! k) → is_Some (process_line line m !! k).
Proof.
  destruct (blocks_keep_keys (PyStr.strip line)) as (H1 & H2 & H3 & H4).
  unfold process_line, try_except_pass.
  repeat case_match; try done.
  - apply H1.
  - apply H2.
  - apply H3.
  - apply H4.
Qed.

Lemma parse_keeps_keys (lines : list str) :
  ∀ (m : gmap string str) (k : string),
    is_Some (m !! k) →
    is_Some (foldl (fun m line => process_line line m) m lines !! k).
Proof.
  induction lines as [|l ls IH]; intros m k Hk; simpl; [done|].
  by apply IH, process_line_keeps_keys.
Qed.

(** A field that no line assigns keeps its value. *)
Lemma parse_frame (lines : list str) (k : string) :
  (∀ line m0, line ∈ lines → process_line line m0 !! k = m0 !! k) →
  ∀ m : gmap string str,
    foldl (fun m line => process_line line m) m lines !! k = m !! k.
Proof.
  induction lines as [|l ls IH]; intros Hf m; simpl; [done|].
  rewrite IH.
  - apply Hf. by left.
  - intros line m0 Hin. apply Hf. by right.
Qed.

(** A field holds its first value or the value some line assigned. *)
Lemma parse_last_writer (lines : list str) (k : string) :
  ∀ m : gmap string str,
    let m' := foldl (fun m line => process_line line m) m lines in
    m' !! k = m !! k ∨
    ∃ line m0, line ∈ lines ∧ process_line line m0 !! k = m' !! k ∧
               process_line line m0 !! k ≠ m0 !! k.
Proof.
  induction lines as [|l ls IH] using rev_ind; intros m; simpl; [by left|].
  rewrite foldl_app. simpl.
  set (m1 := foldl (fun m line => process_line line m) m ls).
  destruct (decide (process_line l m1 !! k = m1 !! k)) as [E|E].
  - rewrite E. destruct (IH m) as [?|(line & m0 & Hin & He & Hne)];
      [by left|].
    right. exists line, m0. rewrite elem_of_app. by eauto.
  - right. exists l, m1. rewrite elem_of_app, list_elem_of_singleton. auto.
Qed.

Lemma initial_metrics_lookup (k : string) :
  k ∈ fields → initial_metrics !! k = Some NA.
Proof.
  unfold fields. rewrite !elem_of_cons.
  intros [->|[->|[->|[->|[->|[->|[->|[->|Hn]]]]]]]]; try reflexivity.
  by apply not_elem_of_nil in Hn.
Qed.

End MonitorFacts.

(** C9. [parse_training_metrics] is a total function of the log text,
    and the dictionary it returns has all eight fields; but a field that a
    line is cut short of is not always left at ['N/A'].  The branches for
    [loss:], [step_time:] and [grad_norm:] take the first word after the
    colon, raise [IndexError] when there is none, and leave ['N/A'], as the
    branches for [EPOCH:] and [TRAINING (] do; the branch for [current_lr:]
    strips what follows the colon and stores it, also when it is empty, and
    so does the branch for [STEP:] and [GLOBAL_STEP:]. *)
Theorem monitor_parse_empty_value :
  (∀ (H : UnicodeDB) (log_content : str) (k : string),
      k ∈ fields → is_Some (parse_training_metrics log_content !! k))
  ∧ @parse_training_metrics ascii_db [] = initial_metrics
  ∧ @parse_training_metrics ascii_db truncated_log = initial_metrics
  ∧ @parse_training_metrics ascii_db (py "     | > step_time:")
      !! "step_time"%string = Some NA
  ∧ @parse_training_metrics ascii_db (py "     | > grad_norm:")
      !! "grad_norm"%string = Some NA
  ∧ @parse_training_metrics ascii_db (py "     | > current_lr:")
      !! "lr"%string = Some []
  ∧ (let m := @parse_training_metrics ascii_db
                (py "   --> STEP: / -- GLOBAL_STEP:") in
     m !! "step"%string = Some []
     ∧ m !! "total_steps"%string = Some []
     ∧ m !! "global_step"%string = Some [])
  ∧ [] ≠ NA.
Proof.
  split_and!.
  - intros H log_content k Hk. unfold parse_training_metrics.
    apply parse_keeps_keys. rewrite initial_metrics_lookup by done.
    by eexists.
  - reflexivity.
  - vm_compute. reflexivity.
  - vm_compute. reflexivity.
  - vm_compute. reflexivity.
  - vm_compute. reflexivity.
  - vm_compute. split_and!; reflexivity.
  - discriminate.
Qed.

(* ===================================================================== *)
(** * Part II, continued: further properties of the scripts               *)
(* ===================================================================== *)

(** ** More on Python strings *)

#[local] Arguments py : simpl never.

Section StripFacts.
Context `{UnicodeDB}.
Local Open Scope N_scope.

Lemma lstrip_spec (s : str) :
  ∃ sp, s = sp ++ PyStr.lstrip s ∧ Forall (fun c => PyStr.isspace c = true) sp
        ∧ PyStr.lstrip (PyStr.lstrip s) = PyStr.lstrip s.
Proof.
  induction s as [|c s (sp & Hs & Hsp & Hi)]; simpl.
  - exists []. done.
  - destruct (PyStr.isspace c) eqn:E.
    + exists (c :: sp). split_and!; [simpl; by f_equal|by constructor|done].
    + exists []. split_and!; [done|done|]. simpl. by rewrite E.
Qed.

Lemma lstrip_length (s : str) : (length (PyStr.lstrip s) ≤ length s)%nat.
Proof.
  destruct (lstrip_spec s) as (sp & Hs & _).
  apply (f_equal length) in Hs. rewrite length_app in Hs. lia.
Qed.

Lemma lstrip_cons_fixed (c : N) (s : str) :
  PyStr.lstrip (c :: s) = c :: s ↔ PyStr.isspace c = false.
Proof.
  simpl. destruct (PyStr.isspace c); split; try done.
  intros Hl. pose proof (lstrip_length s) as Hn. rewrite Hl in Hn.
  simpl in Hn. lia.
Qed.

Lemma lstrip_fixed_app (s t : str) :
  s ≠ [] → PyStr.lstrip s = s → PyStr.lstrip (s ++ t) = s ++ t.
Proof.
  destruct s as [|c s]; [done|]. intros _ Hl.
  apply lstrip_cons_fixed in Hl. by apply lstrip_cons_fixed.
Qed.

(** [strip] returns a text that neither starts nor ends with a space. *)
Lemma strip_trimmed (s : str) :
  PyStr.lstrip (PyStr.strip s) = PyStr.strip s ∧
  PyStr.lstrip (rev (PyStr.strip s)) = rev (PyStr.strip s).
Proof.
  unfold PyStr.strip.
  destruct (lstrip_spec s) as (sp1 & _ & _ & Ha).
  set (a := PyStr.lstrip s) in *.
  destruct (lstrip_spec (rev a)) as (sp2 & Hb & _ & Hbb).
  set (b := PyStr.lstrip (rev a)) in *.
  rewrite rev_involutive. split; [|done].
  apply (f_equal (@rev N)) in Hb. rewrite rev_involutive, rev_app_distr in Hb.
  destruct (rev b) as [|c r] eqn:E; [done|].
  rewrite Hb in Ha. simpl in Ha. apply lstrip_cons_fixed in Ha.
  by apply lstrip_cons_fixed.
Qed.

(** A text that neither starts nor ends with a space is left as it is. *)
Lemma strip_fixed (s : str) :
  PyStr.lstrip s = s → PyStr.lstrip (rev s) = rev s → PyStr.strip s = s.
Proof.
  intros H1 H2. unfold PyStr.strip. by rewrite H1, H2, rev_involutive.
Qed.

Lemma strip_idempotent (s : str) :
  PyStr.strip (PyStr.strip s) = PyStr.strip s.
Proof. destruct (strip_trimmed s). by apply strip_fixed. Qed.

(** What [strip] returns is a piece of the text, between spaces. *)
Lemma strip_spec (s : str) :
  ∃ sp1 sp2, s = sp1 ++ PyStr.strip s ++ sp2 ∧
             Forall (fun c => PyStr.isspace c = true) sp1 ∧
             Forall (fun c => PyStr.isspace c = true) sp2.
Proof.
  unfold PyStr.strip.
  destruct (lstrip_spec s) as (sp1 & Hs & Hsp1 & _).
  destruct (lstrip_spec (rev (PyStr.lstrip s))) as (sp2 & Hb & Hsp2 & _).
  exists sp1, (rev sp2). split_and!; [|done|].
  - rewrite <- rev_app_distr, <- Hb, rev_involutive. done.
  - by apply Forall_rev.
Qed.

End StripFacts.

(** ** More on the Metadata Converter *)

Section CleaningFacts.
Context `{UnicodeDB}.
Local Open Scope N_scope.

Lemma filter_fixed {A} (P : A → Prop) `{!∀ x, Decision (P x)} (l : list A) :
  Forall P l → filter P l = l.
Proof.
  induction 1 as [|x l Hx _ IH]; [done|].
  by rewrite filter_cons_True, IH.
Qed.

Lemma sub_space_runs_length (b : bool) (s : str) :
  (length (sub_space_runs b s) ≤ length s)%nat.
Proof.
  revert b. induction s as [|c s IH]; intros b; simpl; [done|].
  pose proof (IH true). pose proof (IH false).
  destruct (PyStr.isspace c); [destruct b|]; simpl; lia.
Qed.

Lemma sub_space_runs_idempotent (b : bool) (s : str) :
  sub_space_runs b (sub_space_runs b s) = sub_space_runs b s.
Proof.
  revert b. induction s as [|c s IH]; intros b; simpl; [done|].
  destruct (PyStr.isspace c) eqn:E.
  - destruct b; [done|]. simpl. by rewrite IH.
  - simpl. by rewrite E, IH.
Qed.

Lemma sub_space_runs_app (b : bool) (x y : str) :
  ∃ b', sub_space_runs b (x ++ y)
        = sub_space_runs b x ++ sub_space_runs b' y.
Proof.
  revert b. induction x as [|c x IH]; intros b; simpl; [by exists b|].
  destruct (PyStr.isspace c); [destruct b|].
  - apply IH.
  - destruct (IH true) as [b' ->]. by exists b'.
  - destruct (IH false) as [b' ->]. by exists b'.
Qed.

Lemma sub_space_runs_fixed_prefix (b : bool) (x y : str) :
  sub_space_runs b (x ++ y) = x ++ y → sub_space_runs b x = x.
Proof.
  intros Hf. destruct (sub_space_runs_app b x y) as [b' Ha].
  rewrite Ha in Hf.
  pose proof (sub_space_runs_length b x).
  pose proof (sub_space_runs_length b' y).
  apply app_inj_1 in Hf as [? _]; [done|].
  apply (f_equal length) in Hf. rewrite !length_app in Hf. lia.
Qed.

Lemma sub_space_runs_fixed_lstrip (s : str) :
  sub_space_runs false s = s →
  sub_space_runs false (PyStr.lstrip s) = PyStr.lstrip s.
Proof.
  destruct s as [|c s]; [done|]. simpl.
  destruct (PyStr.isspace c) eqn:E; [|intros Hs; simpl; by rewrite E].
  intros [= _ Hs]. destruct s as [|c' s]; [done|]. simpl in *.
  destruct (PyStr.isspace c') eqn:E'.
  - pose proof (sub_space_runs_length true s) as Hl. rewrite Hs in Hl.
    simpl in Hl. lia.
  - simpl. by rewrite E'.
Qed.

Lemma sub_space_runs_elem (b : bool) (s : str) (c : N) :
  c ∈ sub_space_runs b s → c = 32 ∨ c ∈ s.
Proof.
  revert b. induction s as [|c' s IH]; intros b; simpl; [auto|].
  destruct (PyStr.isspace c'); [destruct b|]; rewrite ?elem_of_cons;
    intros Hin.
  - destruct (IH _ Hin); auto.
  - destruct Hin as [->|Hin]; [auto|]. destruct (IH _ Hin); auto.
  - destruct Hin as [->|Hin]; [auto|]. destruct (IH _ Hin); auto.
Qed.

Lemma sub_space_runs_fixed_strip (s : str) :
  sub_space_runs false s = s →
  sub_space_runs false (PyStr.strip s) = PyStr.strip s.
Proof.
  intros Hs. apply sub_space_runs_fixed_lstrip in Hs.
  destruct (lstrip_spec (rev (PyStr.lstrip s))) as (sp & Hb & _).
  apply (f_equal (@rev N)) in Hb.
  rewrite rev_involutive, rev_app_distr in Hb. fold (PyStr.strip s) in Hb.
  rewrite Hb in Hs. by apply sub_space_runs_fixed_prefix in Hs.
Qed.

(** Every character of the normalized text is one the character class
    keeps. *)
Lemma clean_kept (text : str) :
  Forall (fun c => kept c = true) (clean_and_normalize_text text).
Proof.
  unfold clean_and_normalize_text. apply Forall_forall. intros c Hc.
  destruct (strip_spec (sub_space_runs false
              (filter (fun c => kept c = true) text))) as (s1 & s2 & Hs & _).
  assert (c ∈ sub_space_runs false (filter (fun c => kept c = true) text))
    as Hin by (rewrite Hs; set_solver).
  apply sub_space_runs_elem in Hin as [->|Hin]; [done|].
  by apply list_elem_of_filter in Hin as [? _].
Qed.

End CleaningFacts.

Section TextFileFacts.
Local Open Scope N_scope.

Lemma universal_newlines_no_cr (s : str) :
  13 ∉ TextFile.universal_newlines s.
Proof.
  enough ((13 ∉ TextFile.universal_newlines s) ∧
          ∀ c, 13 ∉ TextFile.universal_newlines (c :: s)) by tauto.
  induction s as [|c s [IH1 IH2]].
  - split; [apply not_elem_of_nil|].
    intros c. simpl. destruct (N.eqb_spec c 13); simpl.
    + intros [?|?%not_elem_of_nil]%elem_of_cons; done.
    + intros [?|?%not_elem_of_nil]%elem_of_cons; done.
  - split; [apply IH2|]. intros c'.
    change (TextFile.universal_newlines (c' :: c :: s)) with
      (if c' =? 13
       then 10 :: (if c =? 10 then TextFile.universal_newlines s
                   else TextFile.universal_newlines (c :: s))
       else c' :: TextFile.universal_newlines (c :: s)).
    destruct (N.eqb_spec c' 13).
    + destruct (c =? 10); intros [?|?]%elem_of_cons; try done.
      by eapply IH2.
    + intros [?|?]%elem_of_cons; try done. by eapply IH2.
Qed.

Lemma universal_newlines_fixed (s : str) :
  13 ∉ s → TextFile.universal_newlines s = s.
Proof.
  induction s as [|c s IH]; [done|].
  rewrite not_elem_of_cons. intros [Hc Hs]. simpl.
  destruct (N.eqb_spec c 13); [done|]. by rewrite IH.
Qed.

(** The lines of a file: a body without line break, a line break, and the
    lines of the rest. *)
Lemma lines_go_line (body rest : str) :
  10 ∉ body →
  TextFile.lines_go (body ++ 10 :: rest) =
  (body ++ [10],
   let '(l, ls) := TextFile.lines_go rest in
   match l with [] => ls | _ => l :: ls end).
Proof.
  induction body as [|c body IH]; simpl.
  - intros _. by destruct (TextFile.lines_go rest) as [l ls].
  - rewrite not_elem_of_cons. intros [Hc Hb]. rewrite (IH Hb).
    destruct (N.eqb_spec c 10); [done|]. done.
Qed.

Lemma lines_cons (body rest : str) :
  10 ∉ body → 13 ∉ body → 13 ∉ rest →
  TextFile.lines (body ++ 10 :: rest)
  = (body ++ [10]) :: TextFile.lines rest.
Proof.
  intros H10 H13 Hr. unfold TextFile.lines.
  rewrite !universal_newlines_fixed; [|done|].
  - rewrite lines_go_line by done.
    destruct (TextFile.lines_go rest) as [l ls].
    destruct body; done.
  - rewrite elem_of_app, elem_of_cons. intros [?|[?|?]]; done.
Qed.

(** Lines written one after the other are read back as they were written,
    when no line has a line break inside. *)
Lemma lines_concat (bodies : list str) :
  Forall (fun b => (10 ∉ b) ∧ (13 ∉ b)) bodies →
  TextFile.lines (concat ((fun b => b ++ [10]) <$> bodies))
  = (fun b => b ++ [10]) <$> bodies.
Proof.
  induction 1 as [|b bs [H10 H13] Hbs IH]; [done|].
  rewrite fmap_cons. simpl. rewrite <- app_assoc. simpl.
  rewrite lines_cons, IH; try done.
  clear IH. induction Hbs as [|b' bs' [? ?] _ IH']; simpl.
  - apply not_elem_of_nil.
  - rewrite !elem_of_app, list_elem_of_singleton. intros [[?|?]|?]; done.
Qed.

End TextFileFacts.

Section SplitFacts.
Context `{UnicodeDB}.
Local Open Scope N_scope.

(** [s.split(c, 1)] on a one-character separator cuts at its first
    occurrence. *)
Lemma split_once_char (c : N) (s a b : str) :
  PyStr.split_once [c] s = Some (a, b) ↔ (c ∉ a) ∧ s = a ++ c :: b.
Proof.
  revert a. induction s as [|x s IH]; intros a; simpl.
  - split; [done|]. intros [_ Hs]. by destruct a.
  - destruct (N.eqb_spec c x) as [->|Hne]; simpl.
    + rewrite drop_0. split.
      * intros [= <- <-]. split; [apply not_elem_of_nil|done].
      * intros [Hn Hs]. destruct a as [|y a]; simpl in Hs.
        -- by injection Hs as ->.
        -- injection Hs as -> _. set_solver.
    + destruct (PyStr.split_once [c] s) as [[a' b']|] eqn:E.
      * split.
        -- intros [= <- <-]. destruct (proj1 (IH a') eq_refl) as [Hn ->].
           split; [|done]. rewrite not_elem_of_cons. done.
        -- intros [Hn Hs]. destruct a as [|y a]; simpl in Hs.
           ++ injection Hs as ->. done.
           ++ injection Hs as -> Hs. rewrite not_elem_of_cons in Hn.
              destruct Hn as [_ Hn].
              by pose proof (proj2 (IH a) (conj Hn Hs)) as [= -> ->].
      * split; [done|]. intros [Hn Hs]. destruct a as [|y a]; simpl in Hs.
        -- injection Hs as ->. done.
        -- injection Hs as -> Hs. rewrite not_elem_of_cons in Hn.
           destruct Hn as [_ Hn]. by pose proof (proj2 (IH a) (conj Hn Hs)).
Qed.

(** [s.split(c)] on a one-character separator. *)
Lemma split_char_no_sep (c : N) (a : str) :
  c ∉ a → PyStr.split_go [c] 0 a = (a, []).
Proof.
  induction a as [|x a IH]; [done|].
  rewrite not_elem_of_cons. intros [Hx Ha]. simpl.
  destruct (N.eqb_spec c x); [done|]. simpl. by rewrite IH.
Qed.

Lemma split_char_app (c : N) (a rest : str) :
  c ∉ a →
  PyStr.split [c] (a ++ c :: rest) = a :: PyStr.split [c] rest.
Proof.
  unfold PyStr.split. induction a as [|x a IH]; simpl.
  - intros _. rewrite N.eqb_refl. simpl.
    by destruct (PyStr.split_go [c] 0 rest).
  - rewrite not_elem_of_cons. intros [Hx Ha]. specialize (IH Ha).
    destruct (N.eqb_spec c x); [done|]. simpl.
    destruct (PyStr.split_go [c] 0 (a ++ c :: rest)) as [p ps].
    destruct (PyStr.split_go [c] 0 rest) as [q qs].
    by injection IH as -> ->.
Qed.

(** Removing the occurrences of a text adds no character. *)
Lemma replace_go_elem (old : str) (k : nat) (s : str) (x : N) :
  x ∈ PyStr.replace_go old [] k s → x ∈ s.
Proof.
  revert k. induction s as [|c s IH]; intros k; simpl; [done|].
  destruct k.
  - destruct (PyStr.startswith old (c :: s)); simpl.
    + intros Hin. right. by eapply IH.
    + rewrite !elem_of_cons. intros [->|Hin]; [by left|right; by eapply IH].
  - intros Hin. right. by eapply IH.
Qed.

(** The words of [s.split()] are not empty and hold no space. *)
Lemma split_ws_go_words (s : str) :
  Forall (fun c => PyStr.isspace c = false) (PyStr.split_ws_go s).1 ∧
  Forall (fun w => w ≠ [] ∧ Forall (fun c => PyStr.isspace c = false) w)
         (PyStr.split_ws_go s).2.
Proof.
  induction s as [|c s [IH1 IH2]]; simpl; [done|].
  destruct (PyStr.split_ws_go s) as [w ws]. simpl in *.
  destruct (PyStr.isspace c) eqn:E; simpl.
  - split; [done|]. destruct w; [done|]. constructor; done.
  - split; [by constructor|done].
Qed.

Lemma split_ws_words (s : str) :
  Forall (fun w => w ≠ [] ∧ Forall (fun c => PyStr.isspace c = false) w)
         (PyStr.split_ws s).
Proof.
  unfold PyStr.split_ws. pose proof (split_ws_go_words s) as [H1 H2].
  destruct (PyStr.split_ws_go s) as [w ws]. simpl in *.
  destruct w; [done|]. constructor; done.
Qed.

(** Words joined by single spaces: no space but [' '], none at either
    end. *)
Lemma join_words (ws : list str) :
  Forall (fun w => w ≠ [] ∧ Forall (fun c => PyStr.isspace c = false) w) ws →
  let j := PyStr.join [32] ws in
  Forall (fun c => c = 32 ∨ PyStr.isspace c = false) j
  ∧ PyStr.lstrip j = j ∧ PyStr.lstrip (rev j) = rev j
  ∧ (ws ≠ [] → j ≠ []).
Proof.
  induction 1 as [|w ws [Hne Hw] Hws IH]; [done|].
  assert (PyStr.lstrip w = w ∧ PyStr.lstrip (rev w) = rev w) as [Hl Hr].
  { split.
    - destruct w as [|c w]; [done|]. apply lstrip_cons_fixed.
      by inversion Hw.
    - destruct (rev w) as [|c r] eqn:E; [done|]. apply lstrip_cons_fixed.
      apply Forall_rev in Hw. rewrite E in Hw. by inversion Hw. }
  assert (Forall (fun c => c = 32 ∨ PyStr.isspace c = false) w) as Hw'.
  { eapply Forall_impl; [done|]. simpl. auto. }
  destruct ws as [|w' ws]; [simpl; done|].
  destruct IH as (IHa & IHl & IHr & IHn).
  change (PyStr.join [32] (w :: w' :: ws))
    with (w ++ [32] ++ PyStr.join [32] (w' :: ws)).
  set (j' := PyStr.join [32] (w' :: ws)) in *. simpl. split_and!.
  - apply Forall_app. split; [done|]. constructor; [by left|done].
  - by apply lstrip_fixed_app.
  - rewrite rev_app_distr. simpl. rewrite <- app_assoc. simpl.
    apply lstrip_fixed_app; [|done].
    intros Hj. apply (f_equal (@rev N)) in Hj.
    rewrite rev_involutive in Hj. by apply IHn.
  - intros _. by destruct w.
Qed.

End SplitFacts.

Section ConverterMore.
Context `{UnicodeDB}.
Local Open Scope N_scope.

Lemma sub_space_runs_no_space (b : bool) (s : str) :
  Forall (fun c => c = 32 ∨ PyStr.isspace c = false) (sub_space_runs b s).
Proof.
  revert b. induction s as [|c s IH]; intros b; simpl; [done|].
  destruct (PyStr.isspace c) eqn:E; [destruct b|].
  - apply IH.
  - constructor; [by left|apply IH].
  - constructor; [by right|apply IH].
Qed.

Lemma clean_no_space (text : str) :
  Forall (fun c => c = 32 ∨ PyStr.isspace c = false)
         (clean_and_normalize_text text).
Proof.
  unfold clean_and_normalize_text.
  destruct (strip_spec (sub_space_runs false
              (filter (fun c => kept c = true) text))) as (s1 & s2 & Hs & _).
  pose proof (sub_space_runs_no_space false
                (filter (fun c => kept c = true) text)) as Hf.
  rewrite Hs in Hf. apply Forall_app in Hf as [_ Hf].
  by apply Forall_app in Hf as [Hf _].
Qed.

(** X1. Normalizing a transcript a second time changes nothing. *)
Theorem clean_and_normalize_text_idempotent :
  ∀ text : str,
    clean_and_normalize_text (clean_and_normalize_text text)
    = clean_and_normalize_text text.
Proof.
  intros text. unfold clean_and_normalize_text at 1.
  rewrite (filter_fixed _ _ (clean_kept text)).
  unfold clean_and_normalize_text.
  rewrite sub_space_runs_fixed_strip by apply sub_space_runs_idempotent.
  apply strip_idempotent.
Qed.

Lemma clean_no_bar_no_break (text : str) :
  (124 ∉ clean_and_normalize_text text) ∧
  (10 ∉ clean_and_normalize_text text) ∧
  13 ∉ clean_and_normalize_text text.
Proof.
  pose proof (clean_kept text) as Hk. pose proof (clean_no_space text) as Hs.
  rewrite Forall_forall in Hk, Hs. split_and!; intros Hin.
  - by specialize (Hk _ Hin).
  - by destruct (Hs _ Hin).
  - by destruct (Hs _ Hin).
Qed.

Lemma convert_line_fields (line : str) (r : Converter.row) :
  convert_line line = Ok (Some r) →
  ∃ filename text,
    PyStr.strip line = filename ++ 124 :: text ∧ (124 ∉ filename) ∧
    r = {| file_id := PyStr.replace (py ".wav") [] filename;
           second_column := clean_and_normalize_text text;
           third_column := clean_and_normalize_text text |}.
Proof.
  rewrite convert_line_spec.
  destruct (PyStr.split_once (py "|") (PyStr.strip line)) as [[f t]|] eqn:E;
    [|done].
  intros [= <-]. change (py "|") with [124] in E.
  apply split_once_char in E as [Hn Hs]. eauto.
Qed.

(** X2. A row written by [fix_metadata.py] has exactly three fields
    between its [|]: neither the identifier nor the normalized text holds a
    [|]. *)
Theorem converter_row_three_fields :
  ∀ (line : str) (r : Converter.row),
    convert_line line = Ok (Some r) →
    PyStr.split (py "|") (render r)
    = [file_id r; second_column r; third_column r ++ [10]].
Proof.
  intros line r Hr.
  apply convert_line_fields in Hr as (f & t & _ & Hf & ->).
  destruct (clean_no_bar_no_break t) as (Hc & _ & _).
  unfold render. simpl. change (py "|") with [124].
  set (c := clean_and_normalize_text t) in *.
  set (id := PyStr.replace (py ".wav") [] f).
  assert (124 ∉ id) as Hid.
  { intros Hin. apply Hf. by eapply replace_go_elem. }
  change (id ++ [124] ++ c ++ [124] ++ c ++ [10])
    with (id ++ 124 :: (c ++ 124 :: (c ++ [10]))).
  rewrite !split_char_app by done. do 2 f_equal.
  unfold PyStr.split. rewrite split_char_no_sep; [done|].
  rewrite elem_of_app, list_elem_of_singleton. intros [?|?]; done.
Qed.

End ConverterMore.

Lemma converter_row_three_fields_witness :
  PyStr.split (py "|")
    (render {| file_id := py "henry_001";
               second_column := py "Hello, big world!";
               third_column := py "Hello, big world!" |})
  = [py "henry_001"; py "Hello, big world!";
     py "Hello, big world!" ++ [10%N]].
Proof.
  apply (@converter_row_three_fields ascii_db
           (py "henry_001.wav|Hello,   (big) world!")).
  vm_compute. reflexivity.
Defined.

Section FixMetadataFacts.
Context `{UnicodeDB}.
Local Open Scope N_scope.

Lemma lstrip_snoc_space (s : str) (c : N) :
  PyStr.isspace c = true →
  PyStr.lstrip (s ++ [c]) =
  match PyStr.lstrip s with [] => [] | _ => PyStr.lstrip s ++ [c] end.
Proof.
  intros Hc. induction s as [|x s IH]; simpl.
  - by rewrite Hc.
  - destruct (PyStr.isspace x); [done|]. done.
Qed.

(** A space at the end of a text does not change what [strip] returns. *)
Lemma strip_snoc_space (s : str) (c : N) :
  PyStr.isspace c = true → PyStr.strip (s ++ [c]) = PyStr.strip s.
Proof.
  intros Hc. unfold PyStr.strip. rewrite lstrip_snoc_space by done.
  destruct (PyStr.lstrip s) as [|x a] eqn:E; [done|].
  rewrite rev_app_distr. simpl. by rewrite Hc.
Qed.

Lemma lines_go_shape (s : str) :
  let Q (l : str) := (10 ∉ l) ∨ ∃ body, l = body ++ [10] ∧ (10 ∉ body) in
  Q (TextFile.lines_go s).1 ∧ Forall Q (TextFile.lines_go s).2.
Proof.
  induction s as [|c s [IH1 IH2]]; simpl.
  - split; [left; apply not_elem_of_nil|done].
  - destruct (TextFile.lines_go s) as [l ls]. simpl in *.
    destruct (N.eqb_spec c 10) as [->|Hne]; simpl.
    + split.
      * right. exists []. split; [done|apply not_elem_of_nil].
      * destruct l; [done|]. by constructor.
    + split; [|done]. destruct IH1 as [Hn|(body & -> & Hn)].
      * left. rewrite not_elem_of_cons. done.
      * right. exists (c :: body). split; [done|].
        rewrite not_elem_of_cons. done.
Qed.

(** A line that a file object yields, once stripped, holds no line break. *)
Lemma lines_stripped (content line : str) :
  line ∈ TextFile.lines content →
  (10 ∉ PyStr.strip line) ∧ (13 ∉ PyStr.strip line).
Proof.
  unfold TextFile.lines. intros Hin.
  pose proof (universal_newlines_no_cr content) as Hcr.
  pose proof (lines_go_shape (TextFile.universal_newlines content))
    as [H1 H2].
  assert ((13 ∉ line) ∧
          ((10 ∉ line) ∨ ∃ body, line = body ++ [10] ∧ (10 ∉ body)))
    as [H13 H10].
  { assert (∀ s l, l ∈ (let '(l, ls) := TextFile.lines_go s in
                         match l with [] => ls | _ => l :: ls end) →
                   ∀ x, x ∈ l → x ∈ s) as Hsub.
    { clear. induction s as [|c s IH]; simpl.
      - intros l Hl. by apply not_elem_of_nil in Hl.
      - destruct (TextFile.lines_go s) as [l0 ls]. simpl in *.
        intros l Hl x Hx.
        destruct (N.eqb_spec c 10) as [->|Hne].
        + apply elem_of_cons in Hl as [->|Hl].
          * apply list_elem_of_singleton in Hx as ->. by left.
          * right. eapply IH; [|done]. done.
        + destruct l0 as [|y l0].
          * apply elem_of_cons in Hl as [->|Hl].
            -- apply list_elem_of_singleton in Hx as ->. by left.
            -- right. eapply IH; done.
          * apply elem_of_cons in Hl as [->|Hl].
            -- apply elem_of_cons in Hx as [->|Hx]; [by left|].
               right. eapply IH; [by left|done].
            -- right. eapply IH; [by right|done]. }
    split.
    - intros Hx. apply Hcr. by eapply Hsub.
    - destruct (TextFile.lines_go (TextFile.universal_newlines content))
        as [l ls]. simpl in *. rewrite Forall_forall in H2.
      destruct l; [by apply H2|].
      apply elem_of_cons in Hin as [->|Hin]; [done|by apply H2]. }
  destruct (strip_spec line) as (s1 & s2 & Hs & _).
  split.
  - destruct H10 as [Hn|(body & -> & Hn)].
    + intros Hx. apply Hn. rewrite Hs. set_solver.
    + rewrite strip_snoc_space by done.
      destruct (strip_spec body) as (b1 & b2 & Hb & _).
      intros Hx. apply Hn. rewrite Hb. set_solver.
  - intros Hx. apply H13. rewrite Hs. set_solver.
Qed.

Lemma convert_rows_from (lines : list str) :
  ∃ rows, convert lines = Ok rows ∧
          length rows =
            length (filter (fun l => PyStr.contains (py "|") (PyStr.strip l)
                                     = true) lines) ∧
          Forall (fun r => ∃ line, line ∈ lines ∧
                                   convert_line line = Ok (Some r)) rows.
Proof.
  induction lines as [|l ls (rows & IH & Hlen & Hall)]; simpl.
  - by exists [].
  - rewrite IH, filter_cons.
    pose proof (convert_line_spec l) as Hl.
    pose proof (contains_split_once (py "|") (PyStr.strip l)) as Hc.
    assert (Forall (fun r => ∃ line, line ∈ l :: ls ∧
                                     convert_line line = Ok (Some r)) rows)
      as Hall'.
    { eapply Forall_impl; [done|]. intros r (line & ? & ?).
      exists line. split; [by right|done]. }
    destruct (PyStr.split_once (py "|") (PyStr.strip l)) as [[f t]|].
    + rewrite Hl. simpl. eexists. split_and!; [done| |].
      * rewrite decide_True by (apply Hc; by eexists). simpl. lia.
      * constructor; [|done]. exists l. split; [by left|done].
    + rewrite Hl. simpl. exists rows. split_and!; [done| |done].
      rewrite decide_False; [done|].
      intros Ht. apply Hc in Ht as [? ?]. done.
Qed.

(** X3. [fix_metadata.py] raises only when its input file is missing.
    Otherwise it writes one row for each input line that, stripped,
    contains a [|], drops the other lines, leaves every other file as it
    was, and its output file reads back as exactly one line per row. *)
Theorem fix_metadata_main_effect :
  ∀ p : project,
    match text_files p !! input_file with
    | None => fix_metadata_main p = Fails FileNotFoundError
    | Some content =>
        ∃ rows,
          fix_metadata_main p
          = Ok (write_text output_file (concat (render <$> rows)) p)
          ∧ length rows =
              length (filter (fun l => PyStr.contains (py "|") (PyStr.strip l)
                                       = true) (TextFile.lines content))
          ∧ TextFile.lines (concat (render <$> rows)) = render <$> rows
    end.
Proof.
  intros p. unfold fix_metadata_main.
  destruct (text_files p !! input_file) as [content|]; [|done].
  destruct (convert_rows_from (TextFile.lines content))
    as (rows & -> & Hlen & Hall).
  exists rows. split_and!; [done|done|].
  set (body := fun r : Converter.row =>
         file_id r ++ py "|" ++ second_column r ++ py "|" ++ third_column r).
  assert (render <$> rows = (fun b => b ++ [10]) <$> (body <$> rows)) as ->.
  { rewrite <- list_fmap_compose. apply list_fmap_ext. intros _ r _.
    unfold render, body. change (py "|") with [124]. simpl.
    repeat (rewrite <- app_assoc; simpl). done. }
  apply lines_concat. apply Forall_fmap.
  eapply Forall_impl; [exact Hall|]. intros r (line & Hin & Hr). cbn beta.
  apply convert_line_fields in Hr as (f & t & Hs & _ & ->).
  destruct (lines_stripped _ _ Hin) as [H10 H13]. rewrite Hs in H10, H13.
  destruct (clean_no_bar_no_break t) as (_ & Hc10 & Hc13).
  unfold body, compose. change (py "|") with [124].
  cbn [file_id second_column third_column].
  assert (∀ x, x ∈ PyStr.replace (py ".wav") [] f → x ∈ f) as Hid
    by (intros x; apply replace_go_elem).
  rewrite !elem_of_app, !list_elem_of_singleton.
  split; intros [Hx|[Hx|[Hx|[Hx|Hx]]]]; try done;
    apply Hid in Hx; [apply H10|apply H13]; apply elem_of_app; by left.
Qed.

End FixMetadataFacts.

Section PipelineFacts.
Context `{UnicodeDB}.
Local Open Scope N_scope.

Lemma last_cons_match {A} (x : A) (l : list A) :
  last (x :: l) = match last l with Some y => Some y | None => Some x end.
Proof. destruct l as [|y l]; [done|]. rewrite last_cons_cons.
  destruct (last (y :: l)) eqn:E; [done|]. by apply last_None in E. Qed.

Lemma foldl_insert_lookup (l : list (str * str)) (f : str) :
  ∀ m : gmap str str,
    foldl (fun m e => <[e.1 := e.2]> m) m l !! f =
    match last (filter (fun e => e.1 = f) l) with
    | Some e => Some e.2
    | None => m !! f
    end.
Proof.
  induction l as [|e l IH]; intros m; simpl; [done|].
  rewrite IH, filter_cons. destruct (decide (e.1 = f)) as [<-|Hne].
  - rewrite last_cons_match.
    destruct (last (filter (fun e0 => e0.1 = e.1) l)); [done|].
    by rewrite lookup_insert_eq.
  - destruct (last (filter (fun e0 => e0.1 = f) l)); [done|].
    by rewrite lookup_insert_ne.
Qed.

(** X4. The transcript of a file name is the text of the last entry with
    that file name among the first 80 entries of [training.json]; what
    follows the 80th entry is never used. *)
Theorem mapping_last_of_first_80 :
  ∀ (entries : list (str * str)) (f : str),
    mapping entries !! f =
    snd <$> last (filter (fun e => e.1 = f) (take 80 entries)).
Proof.
  intros entries f. unfold mapping. rewrite foldl_insert_lookup.
  by destruct (last (filter (fun e => e.1 = f) (take 80 entries))).
Qed.

Lemma clean_transcript_shape (t : str) :
  Forall (fun c => c = 32 ∨ PyStr.isspace c = false) (clean_transcript t)
  ∧ PyStr.lstrip (clean_transcript t) = clean_transcript t
  ∧ PyStr.lstrip (rev (clean_transcript t)) = rev (clean_transcript t).
Proof.
  unfold clean_transcript.
  destruct (join_words _ (split_ws_words
              (PyStr.replace [13] [32] (PyStr.replace [10] [32] t))))
    as (? & ? & ? & _).
  done.
Qed.

(** What [fix_metadata.py] reads from a line that [create_metadata.py]
    wrote. *)
Lemma convert_created_line (f t : str) :
  124 ∉ f → PyStr.lstrip f = f →
  convert_line (f ++ py "|" ++ clean_transcript t ++ [10]) =
  Ok (Some {| file_id := PyStr.replace (py ".wav") [] f;
              second_column :=
                clean_and_normalize_text (clean_transcript t);
              third_column :=
                clean_and_normalize_text (clean_transcript t) |}).
Proof.
  intros Hbar Hf. destruct (clean_transcript_shape t) as (_ & Hl & Hr).
  set (ct := clean_transcript t) in *.
  change (py "|") with [124].
  assert (PyStr.strip (f ++ [124] ++ ct ++ [10]) = f ++ 124 :: ct) as Hs.
  { replace (f ++ [124] ++ ct ++ [10]) with ((f ++ 124 :: ct) ++ [10])
      by (by rewrite <- app_assoc).
    rewrite strip_snoc_space by done.
    apply strip_fixed.
    - destruct f as [|c f]; [by apply lstrip_cons_fixed|].
      by apply lstrip_fixed_app.
    - rewrite rev_app_distr. simpl. rewrite <- app_assoc. simpl.
      destruct (rev ct) as [|c r] eqn:E; [by apply lstrip_cons_fixed|].
      by apply lstrip_fixed_app. }
  rewrite convert_line_spec, Hs. change (py "|") with [124].
  by rewrite (proj2 (split_once_char 124 (f ++ 124 :: ct) f ct)).
Qed.

(** The line is shown by the loop over the first entries. *)
Lemma show_created_line (f t : str) :
  124 ∉ f → PyStr.lstrip f = f →
  show_entry (f ++ py "|" ++ clean_transcript t ++ [10]) = Ok ().
Proof.
  intros Hbar Hf. pose proof (convert_created_line f t Hbar Hf) as Hc.
  rewrite convert_line_spec in Hc. unfold show_entry.
  by destruct (PyStr.split_once (py "|")
                 (PyStr.strip (f ++ py "|" ++ clean_transcript t ++ [10]))).
Qed.

Lemma show_entries_all (ls : list str) :
  Forall (fun l => show_entry l = Ok ()) ls → show_entries ls = Ok ().
Proof. induction 1 as [|l ls Hl _ IH]; [done|]. simpl. by rewrite Hl. Qed.

(** What can be encoded. *)
Lemma encodable_Forall (text : str) :
  encodable text = true ↔
  Forall (fun c => (55296 <=? c) && (c <=? 57343) = false) text.
Proof.
  unfold encodable. induction text as [|c text IH]; simpl.
  - split; [constructor|done].
  - rewrite andb_true_iff, IH, Forall_cons, negb_true_iff. done.
Qed.

Lemma encodable_app (a b : str) :
  encodable (a ++ b) = encodable a && encodable b.
Proof. unfold encodable. apply forallb_app. Qed.

Lemma replace_go_elem_new (old new : str) (k : nat) (s : str) (x : N) :
  x ∈ PyStr.replace_go old new k s → x ∈ s ∨ x ∈ new.
Proof.
  revert k. induction s as [|c s IH]; intros k; simpl; [by left|].
  destruct k.
  - destruct (PyStr.startswith old (c :: s)); simpl.
    + rewrite elem_of_app. intros [?|Hin]; [by right|].
      destruct (IH _ Hin); [left; by right|by right].
    + rewrite !elem_of_cons. intros [->|Hin]; [left; by left|].
      destruct (IH _ Hin); [left; by right|by right].
  - intros Hin. destruct (IH _ Hin); [left; by right|by right].
Qed.

Lemma split_ws_go_elem (s : str) (x : N) :
  x ∈ (PyStr.split_ws_go s).1 ++ concat (PyStr.split_ws_go s).2 → x ∈ s.
Proof.
  induction s as [|c s IH]; simpl; [done|].
  destruct (PyStr.split_ws_go s) as [w ws]. simpl in IH.
  destruct (PyStr.isspace c); simpl.
  - intros Hin. right. apply IH. by destruct w.
  - rewrite !elem_of_cons. intros [->|Hin]; [by left|right; by apply IH].
Qed.

Lemma split_ws_elem (s : str) (x : N) :
  x ∈ concat (PyStr.split_ws s) → x ∈ s.
Proof.
  intros Hin. apply split_ws_go_elem. unfold PyStr.split_ws in Hin.
  destruct (PyStr.split_ws_go s) as [w ws]. simpl. by destruct w.
Qed.

Lemma join_elem (sep : str) (ws : list str) (x : N) :
  x ∈ PyStr.join sep ws → x ∈ sep ∨ x ∈ concat ws.
Proof.
  induction ws as [|w ws IH]; [by right|].
  destruct ws as [|w' ws].
  - simpl. rewrite app_nil_r. by right.
  - change (PyStr.join sep (w :: w' :: ws))
      with (w ++ sep ++ PyStr.join sep (w' :: ws)).
    change (concat (w :: w' :: ws)) with (w ++ concat (w' :: ws)).
    rewrite !elem_of_app. intros [?|[?|Hin]]; [right; by left|by left|].
    destruct (IH Hin); [by left|right; by right].
Qed.

Lemma clean_transcript_elem (t : str) (x : N) :
  x ∈ clean_transcript t → x = 32 ∨ x ∈ t.
Proof.
  unfold clean_transcript, PyStr.replace. intros Hin.
  apply join_elem in Hin as [Hin|Hin];
    [left; by apply list_elem_of_singleton in Hin|].
  apply split_ws_elem, replace_go_elem_new in Hin as [Hin|Hin];
    [|left; by apply list_elem_of_singleton in Hin].
  apply replace_go_elem_new in Hin as [Hin|Hin];
    [by right|left; by apply list_elem_of_singleton in Hin].
Qed.

Lemma clean_transcript_encodable (t : str) :
  encodable t = true → encodable (clean_transcript t) = true.
Proof.
  rewrite !encodable_Forall, !Forall_forall. intros Ht x Hx.
  apply clean_transcript_elem in Hx as [->|Hx]; [done|by apply Ht].
Qed.

(** A transcript of the mapping is the text of one of the first 80
    entries. *)
Lemma mapping_elem (entries : list (str * str)) (f t : str) :
  mapping entries !! f = Some t → (f, t) ∈ take 80 entries.
Proof.
  unfold mapping. rewrite foldl_insert_lookup.
  destruct (last (filter (fun e => e.1 = f) (take 80 entries)))
    as [[f' t']|] eqn:E; [|done].
  intros [= <-]. apply last_Some in E as [l' E].
  assert ((f', t') ∈ filter (fun e : str * str => e.1 = f) (take 80 entries))
    as Hin by (rewrite E, elem_of_app, list_elem_of_singleton; by right).
  apply list_elem_of_filter in Hin as [Hf Hin]. simpl in Hf. by subst f'.
Qed.

Lemma write_lines_all (ls : list str) :
  Forall (fun l => encodable l = true) ls → write_lines ls = Ok ().
Proof. induction 1 as [|l ls Hl _ IH]; [done|]. simpl. by rewrite Hl. Qed.

Lemma metadata_lines_cons (m : gmap str str) (f : str) (fs : list str) :
  metadata_lines m (f :: fs) =
  match m !! f with
  | Some t => (f ++ [124] ++ clean_transcript t ++ [10])
                :: metadata_lines m fs
  | None => metadata_lines m fs
  end.
Proof. reflexivity. Qed.

Lemma metadata_lines_bodies (m : gmap str str) (files : list str) :
  metadata_lines m files =
  (fun b => b ++ [10]) <$>
    omap (fun f : str =>
            (fun t => f ++ [124] ++ clean_transcript t) <$> m !! f)
         files.
Proof.
  induction files as [|f fs IH]; [done|].
  rewrite metadata_lines_cons. cbn [omap list_omap].
  destruct (m !! f) as [t|]; cbn [fmap option_fmap option_map];
    [|done].
  rewrite fmap_cons, IH. f_equal. by rewrite <- !app_assoc.
Qed.

Lemma convert_metadata_lines (m : gmap str str) (files : list str) :
  Forall (fun f => (124 ∉ f) ∧ PyStr.lstrip f = f) files →
  convert (metadata_lines m files) =
  Ok (omap (fun f : str =>
              (fun t => {| file_id := PyStr.replace (py ".wav") [] f;
                           second_column :=
                             clean_and_normalize_text (clean_transcript t);
                           third_column :=
                             clean_and_normalize_text (clean_transcript t) |})
                <$> m !! f) files).
Proof.
  induction 1 as [|f fs [Hb Hl] _ IH]; [done|].
  rewrite metadata_lines_cons. cbn [omap list_omap].
  destruct (m !! f) as [t|]; cbn [fmap option_fmap option_map]; [|done].
  cbn [convert]. change [124] with (py "|") at 1.
  by rewrite convert_created_line, IH.
Qed.

(** X5. The two converters run in sequence.  When no name of the audio
    directory holds a [|] or a line break or starts with a space, and
    neither these names nor the texts of the first 80 entries hold a
    surrogate code point (which UTF-8 cannot encode), [create_metadata.py]
    returns and [fix_metadata.py] reads back every line that it wrote: it
    writes one row for each [.wav] file that has a transcript, in the
    sorted order of the names, with the name without its [.wav]s as
    identifier and the normalized transcript in both text fields. *)
Theorem converter_pipeline :
  ∀ (p : project) (entries : list (str * str)),
    training_json p = Some entries →
    Forall (fun f => (124 ∉ f) ∧ (10 ∉ f) ∧ (13 ∉ f) ∧ PyStr.lstrip f = f ∧
                     encodable f = true)
           (raw_audio p) →
    Forall (fun e => encodable e.2 = true) (take 80 entries) →
    let files := sorted (glob_wav (raw_audio p)) in
    let rows :=
      omap (fun f : str =>
              (fun t => {| file_id := PyStr.replace (py ".wav") [] f;
                           second_column :=
                             clean_and_normalize_text (clean_transcript t);
                           third_column :=
                             clean_and_normalize_text (clean_transcript t) |})
                <$> mapping entries !! f) files in
    ∃ p1, create_metadata_from_json p = Ok p1 ∧
          fix_metadata_main p1
          = Ok (write_text output_file (concat (render <$> rows)) p1).
Proof.
  intros p entries Hj Hall Htexts files rows.
  assert (Forall (fun f => (124 ∉ f) ∧ (10 ∉ f) ∧ (13 ∉ f) ∧
                           PyStr.lstrip f = f ∧ encodable f = true) files)
    as Hfiles.
  { apply Forall_forall. intros f Hf. rewrite Forall_forall in Hall.
    apply Hall. unfold files, sorted in Hf.
    rewrite merge_sort_Permutation in Hf. unfold glob_wav in Hf.
    by apply list_elem_of_filter in Hf as [_ ?]. }
  assert (TextFile.lines (concat (metadata_lines (mapping entries) files))
          = metadata_lines (mapping entries) files) as Hlines.
  { rewrite metadata_lines_bodies. apply lines_concat.
    clear -Hfiles. induction Hfiles as [|f fs (Hb & H10 & H13 & _) _ IH];
      [done|]. cbn [omap list_omap].
    destruct (mapping entries !! f) as [t|];
      cbn [fmap option_fmap option_map]; [|done].
    constructor; [|done].
    destruct (clean_transcript_shape t) as (Hc & _ & _).
    rewrite Forall_forall in Hc.
    rewrite !elem_of_app, !list_elem_of_singleton.
    split; intros [?|[?|Hx]]; try done; by destruct (Hc _ Hx). }
  assert (∀ l, l ∈ metadata_lines (mapping entries) files →
               encodable l = true ∧ show_entry l = Ok ()) as Hl.
  { intros l (f & t & Hf & Hm & ->)%metadata_lines_sound.
    rewrite Forall_forall in Hfiles.
    destruct (Hfiles f Hf) as (Hb & _ & _ & Hs & He).
    split; [|by apply show_created_line].
    rewrite !encodable_app, He, clean_transcript_encodable; [done|].
    rewrite Forall_forall in Htexts.
    by apply (Htexts (f, t)), mapping_elem. }
  unfold create_metadata_from_json. rewrite Hj. cbv zeta. fold files.
  rewrite write_lines_all
    by (apply Forall_forall; intros l Hin; by apply Hl).
  rewrite Hlines, show_entries_all.
  2:{ apply Forall_forall. intros l Hin%subseteq_take. by apply Hl. }
  eexists. split; [done|].
  unfold fix_metadata_main. simpl. unfold metadata_csv.
  rewrite lookup_insert_eq, Hlines.
  rewrite convert_metadata_lines; [done|].
  eapply Forall_impl; [exact Hfiles|]. simpl. tauto.
Qed.

End PipelineFacts.

Lemma converter_pipeline_witness :
  let p := {| text_files := ∅;
              training_json :=
                Some [(py "b.wav", py "Second  line"); (py "a.wav", py "First")];
              raw_audio := [py "b.wav"; py "notes.txt"; py "a.wav"] |} in
  ∃ p1, @create_metadata_from_json ascii_db p = Ok p1 ∧
        left_in output_file (@fix_metadata_main ascii_db p1)
        = Ok (Some (py "a|First|First" ++ [10%N] ++
                    py "b|Second line|Second line" ++ [10%N])).
Proof.
  intros p.
  destruct (@converter_pipeline ascii_db p
              [(py "b.wav", py "Second  line"); (py "a.wav", py "First")]
              eq_refl) as (p1 & Hc & Hf).
  - repeat constructor; vm_compute; try reflexivity;
      intros Hin; repeat (apply elem_of_cons in Hin as [Hin|Hin];
                          [discriminate Hin|]);
      by apply not_elem_of_nil in Hin.
  - repeat constructor.
  - exists p1. split; [done|]. rewrite Hf. simpl.
    rewrite lookup_insert_eq. vm_compute. reflexivity.
Defined.

(** ** More on the Data Validator *)

Section ValidationFacts.
Import Validation.

Lemma filter_none {A} (P : A → Prop) `{!∀ x, Decision (P x)} (l : list A) :
  (∀ x, x ∈ l → ¬ P x) → filter P l = [].
Proof.
  induction l as [|x l IH]; intros Hn; [done|].
  rewrite filter_cons_False by (apply Hn; by left).
  apply IH. intros y Hy. apply Hn. by right.
Qed.

Lemma check_row_cases (dir : audio_dir) (f : str) (r : audio_report) :
  missing_files (check_row dir f r) =
    missing_files r ++ (if path_exists dir f then [] else [f])
  ∧ (invalid_files (check_row dir f r)).*1 =
    (invalid_files r).*1 ++
    (if path_exists dir f && negb (readable dir f) then [f] else [])
  ∧ length (durations (check_row dir f r)) =
    length (durations r) +
    (if path_exists dir f && readable dir f then 1 else 0).
Proof.
  unfold check_row, readable.
  destruct (path_exists dir f) eqn:E; simpl.
  - destruct (sf_read dir f) as [[n sr]|e] eqn:Er; simpl.
    + unfold duration_of. destruct (Nat.eqb_spec sr 0) as [->|Hne]; simpl;
        rewrite ?fmap_app, ?length_app, ?app_nil_r; simpl;
        split_and!; try done; lia.
    + rewrite ?fmap_app, ?app_nil_r. simpl. split_and!; try done; lia.
  - rewrite ?app_nil_r. split_and!; try done; lia.
Qed.

Lemma check_rows_spec (dir : audio_dir) (df : list Validator.row) :
  let names := Validator.filename <$> df in
  let r := check_rows dir df in
  missing_files r = filter (fun f => path_exists dir f = false) names
  ∧ (invalid_files r).*1 =
    filter (fun f => path_exists dir f = true ∧ readable dir f = false) names
  ∧ length (durations r) =
    length (filter (fun f => path_exists dir f = true ∧
                             readable dir f = true) names).
Proof.
  intros names r. subst names r. unfold check_rows.
  enough (∀ r0,
    let r := foldl (fun r row => check_row dir (Validator.filename row) r)
                   r0 df in
    missing_files r = missing_files r0 ++
      filter (fun f => path_exists dir f = false) (Validator.filename <$> df)
    ∧ (invalid_files r).*1 = (invalid_files r0).*1 ++
      filter (fun f => path_exists dir f = true ∧ readable dir f = false)
             (Validator.filename <$> df)
    ∧ length (durations r) = length (durations r0) +
      length (filter (fun f => path_exists dir f = true ∧
                               readable dir f = true)
                     (Validator.filename <$> df))) as Hgen.
  { destruct (Hgen no_report) as (H1 & H2 & H3). simpl in *. done. }
  induction df as [|row df IH]; intros r0; simpl.
  - rewrite !app_nil_r. split_and!; try done; lia.
  - destruct (IH (check_row dir (Validator.filename row) r0))
      as (H1 & H2 & H3).
    destruct (check_row_cases dir (Validator.filename row) r0)
      as (C1 & C2 & C3).
    rewrite H1, H2, H3, C1, C2, C3, !filter_cons.
    destruct (path_exists dir (Validator.filename row)),
      (readable dir (Validator.filename row)); simpl;
      repeat (case_decide; try (exfalso; intuition congruence));
      rewrite <- ?app_assoc, ?app_nil_r; simpl;
      change (list_fmap Validator.row str Validator.filename df)
        with (Validator.filename <$> df);
      split_and!; try done; lia.
Qed.

Lemma validate_audio_files_spec :
  ∀ (dir : audio_dir) (df : list Validator.row),
    let names := Validator.filename <$> df in
    let r := check_rows dir df in
    missing_files r = filter (fun f => path_exists dir f = false) names
    ∧ (invalid_files r).*1 =
      filter (fun f => path_exists dir f = true ∧ readable dir f = false)
             names
    ∧ length (missing_files r) + length (invalid_files r)
      + length (durations r) = length df
    ∧ ((validate_audio_files dir df).1 = true ↔
       is_Some (listing dir) ∧
       ∀ f, f ∈ names → path_exists dir f = true ∧ readable dir f = true).
Proof.
  intros dir df names r.
  destruct (check_rows_spec dir df) as (H1 & H2 & H3).
  fold names r in H1, H2, H3. split_and!; [done|done| |].
  - rewrite <- (length_fmap fst (invalid_files r)), H1, H2, H3.
    replace (length df) with (length names) by apply length_fmap.
    clear. induction names as [|f fs IH]; simpl; [done|].
    rewrite !filter_cons.
    destruct (path_exists dir f), (readable dir f);
      repeat case_decide; simpl; try lia; exfalso; intuition congruence.
  - unfold validate_audio_files. destruct (listing dir) as [l|]; simpl.
    2:{ split; [done|]. intros [[? ?] _]. done. }
    fold r. rewrite andb_true_iff, !Nat.eqb_eq.
    rewrite <- (length_fmap fst (invalid_files r)), H1, H2.
    rewrite !length_zero_iff_nil. split.
    + intros [Hm Hi]. split; [by eexists|]. intros f Hf.
      destruct (path_exists dir f) eqn:E1.
      * destruct (readable dir f) eqn:E2; [done|]. exfalso.
        by apply (filter_nil_not_elem_of _ _ f Hi).
      * exfalso. by apply (filter_nil_not_elem_of _ _ f Hm).
    + intros [_ Hall]. split; apply filter_none; intros f Hf;
        destruct (Hall f Hf) as [E1 E2]; rewrite E1, ?E2;
        intuition congruence.
Qed.

(** X6. [validate_audio_files] sorts every row into exactly one of three
    groups: missing (the file does not exist; it is not opened), invalid
    (it exists but reading raises or its rate is 0) and measured.  It
    returns [True] exactly when the directory exists and every row is
    measured. *)
Theorem validate_audio_files_partition :
  ∀ (dir : audio_dir) (df : list Validator.row),
    let names := Validator.filename <$> df in
    let r := check_rows dir df in
    missing_files r = filter (fun f => path_exists dir f = false) names
    ∧ (invalid_files r).*1 =
      filter (fun f => path_exists dir f = true ∧ readable dir f = false)
             names
    ∧ length (missing_files r) + length (invalid_files r)
      + length (durations r) = length df
    ∧ ((validate_audio_files dir df).1 = true ↔
       is_Some (listing dir) ∧
       ∀ f, f ∈ names → path_exists dir f = true ∧ readable dir f = true).
Proof. apply validate_audio_files_spec. Qed.

Lemma ready_iff_counts (df : list Validator.row) (names : list str) :
  Validator.ready (Validator.validate_training_readiness df names) = true ↔
  50 ≤ length df ∧ length df = length (glob_wav names).
Proof.
  rewrite validator_ready_is_no_issue, validator_issues_shape.
  destruct (Nat.ltb_spec (length df) 50);
    destruct (Nat.eqb_spec (length (glob_wav names)) (length df));
    simpl; split; try done; try lia; intros [? ?]; lia.
Qed.

(** X7. The validation script as a whole: it reports success, and exits
    with status 0, exactly when the metadata was read, the audio directory
    exists, the file of every row exists and can be read at a rate other
    than 0, there are at least 50 rows, and the directory holds as many
    [.wav] files as there are rows. *)
Theorem validation_main_success :
  ∀ (metadata : option (list Validator.row)) (dir : audio_dir),
    (main metadata dir = true ↔
     ∃ df names,
       metadata = Some df ∧ listing dir = Some names ∧
       (∀ f, f ∈ Validator.filename <$> df →
             path_exists dir f = true ∧ readable dir f = true) ∧
       50 ≤ length df ∧ length df = length (glob_wav names))
    ∧ (exit_code metadata dir = 0%Z ↔ main metadata dir = true).
Proof.
  intros metadata dir. split.
  - unfold main. destruct metadata as [df|].
    2:{ split; [done|]. intros (? & ? & ? & _). done. }
    pose proof (validate_audio_files_spec dir df) as (_ & _ & _ & Hv).
    destruct ((validate_audio_files dir df).1) eqn:E; simpl.
    + destruct (proj1 Hv eq_refl) as [[names Hn] Hall].
      rewrite Hn. simpl. rewrite ready_iff_counts. split.
      * intros [? ?]. exists df, names. done.
      * intros (df' & names' & [= <-] & Hn' & _ & ? & ?).
        injection Hn' as <-. done.
    + split; [done|]. intros (df' & names' & [= <-] & Hn' & Hall & _).
      apply Hv. split; [by eexists|done].
  - unfold exit_code. destruct (main metadata dir); done.
Qed.

End ValidationFacts.

Section DuplicateFacts.
Import Validator.

Lemma duplicated_closed (df : list row) (r : row) :
  r ∈ duplicated_keep_false df →
  filter (fun r' => transcript r' = transcript r) (duplicated_keep_false df)
  = filter (fun r' => transcript r' = transcript r) df.
Proof.
  unfold duplicated_keep_false. intros [Hc _]%list_elem_of_filter.
  rewrite list_filter_filter. apply list_filter_iff. intros r'.
  split; [tauto|]. intros E. split; [done|].
  erewrite list_filter_iff; [exact Hc|]. intros r''. simpl. by rewrite E.
Qed.

Lemma duplicated_nil_iff (df : list row) :
  duplicated_keep_false df = [] ↔ NoDup (transcript <$> df).
Proof.
  unfold duplicated_keep_false. split.
  - intros Hnil.
    assert (∀ r, r ∈ df →
              length (filter (fun r' => transcript r' = transcript r) df) < 2)
      as Hc.
    { intros r Hr. destruct (decide (2 ≤ length
        (filter (fun r' => transcript r' = transcript r) df))) as [Hge|]; [|lia].
      exfalso. by apply (filter_nil_not_elem_of _ _ r Hnil). }
    clear Hnil. induction df as [|r df IH]; [constructor|].
    rewrite fmap_cons. constructor.
    + intros Hin. apply list_elem_of_fmap in Hin as (r' & E & Hr').
      specialize (Hc r (ltac:(by left))). rewrite filter_cons_True in Hc by done.
      simpl in Hc.
      assert (r' ∈ filter (fun r'0 => transcript r'0 = transcript r) df) as Hf
        by (apply list_elem_of_filter; done).
      destruct (filter (fun r'0 => transcript r'0 = transcript r) df);
        [by apply not_elem_of_nil in Hf|]. simpl in Hc. lia.
    + apply IH. intros r' Hr'. specialize (Hc r' (ltac:(by right))).
      rewrite filter_cons in Hc. case_decide; simpl in Hc; lia.
  - intros Hnd. apply filter_none. intros r Hr Hge.
    induction df as [|r0 df IH]; [by apply not_elem_of_nil in Hr|].
    rewrite fmap_cons in Hnd. apply NoDup_cons in Hnd as [Hn Hnd].
    rewrite filter_cons in Hge.
    apply elem_of_cons in Hr as [->|Hr].
    + rewrite decide_True in Hge by done. simpl in Hge.
      destruct (filter (fun r' => transcript r' = transcript r0) df)
        as [|r1 l] eqn:E; [simpl in Hge; lia|].
      assert (r1 ∈ filter (fun r' => transcript r' = transcript r0) df) as Hf
        by (rewrite E; by left).
      apply list_elem_of_filter in Hf as [E1 Hin]. apply Hn.
      rewrite <- E1. apply list_elem_of_fmap. eauto.
    + case_decide as E0.
      * apply Hn. rewrite E0. apply list_elem_of_fmap. eauto.
      * by apply IH.
Qed.

(** X8. The warning on duplicate transcripts is raised exactly when two
    rows have the same transcript; the number it reports counts every row of
    every group of equal transcripts, so it is at least 2 and at most the
    number of rows. *)
Theorem duplicate_warning_count :
  ∀ (df : list row) (audio_dir : list str),
    let a := validate_training_readiness df audio_dir in
    ((∃ n, DuplicateTranscripts n ∈ warnings a) ↔
     ¬ NoDup (transcript <$> df))
    ∧ (∀ n, DuplicateTranscripts n ∈ warnings a →
            n = length (duplicated_keep_false df) ∧ 2 ≤ n ≤ length df).
Proof.
  intros df audio_dir a. subst a.
  assert (∀ n, DuplicateTranscripts n ∈
                 warnings (validate_training_readiness df audio_dir) ↔
               n = length (duplicated_keep_false df) ∧ 0 < n) as Hw.
  { intros n. unfold validate_training_readiness. simpl.
    destruct (length df <? 50); [|destruct (length df <? 100)];
      destruct (Nat.ltb_spec 0 (length (duplicated_keep_false df)));
      simpl; rewrite ?elem_of_cons, ?elem_of_nil;
      split; intros; destruct_or?; simplify_eq; try done; try lia;
      destruct_and?; subst; auto; try lia. }
  split.
  - rewrite <- duplicated_nil_iff. split.
    + intros [n [-> Hn]%Hw] E. rewrite E in Hn. simpl in Hn. lia.
    + intros Hne. exists (length (duplicated_keep_false df)). apply Hw.
      split; [done|]. destruct (duplicated_keep_false df); [done|simpl; lia].
  - intros n [-> Hn]%Hw. split; [done|]. split.
    + destruct (duplicated_keep_false df) as [|r l] eqn:E; [simpl in Hn; lia|].
      assert (r ∈ duplicated_keep_false df) as Hr by (rewrite E; by left).
      pose proof (duplicated_closed df r Hr) as Hcl.
      pose proof Hr as [Hc _]%list_elem_of_filter.
      rewrite <- Hcl, E in Hc.
      pose proof (length_filter (fun r' => transcript r' = transcript r)
                    (r :: l)). lia.
    + apply length_filter.
Qed.

End DuplicateFacts.

(** ** More on the Training Launcher *)

Section LauncherFacts.
Import Launcher.

Lemma write_header_log (w : world) (parts : list str) :
  ∀ (k : nat) (s : state) (l0 : list str),
    log_file s = Some l0 →
    log_file (write_header w k parts s).2 =
    Some (l0 ++ take (match fault w with
                      | Some (Header j, _) =>
                          if decide (k ≤ j) then j - k else length parts
                      | _ => length parts
                      end) parts)
    ∧ terminated (write_header w k parts s).2 = terminated s.
Proof.
  induction parts as [|part rest IH]; intros k s l0 Hl; simpl.
  - rewrite take_nil, app_nil_r. done.
  - unfold at_stage.
    destruct (fault w) as [[st e]|] eqn:Ef.
    + destruct (decide (Header k = st)) as [<-|Hne]; simpl.
      * rewrite decide_True by done. rewrite Nat.sub_diag, take_0, app_nil_r.
        done.
      * destruct (IH (S k) (append_log part s) (l0 ++ [part])) as [-> ->].
        { unfold append_log. simpl. by rewrite Hl. }
        split; [|done]. f_equal. rewrite <- app_assoc. f_equal. simpl.
        destruct st as [| | |j|j| |]; try done.
        assert (k ≠ j) by congruence.
        destruct (decide (k ≤ j)), (decide (S k ≤ j)); try lia; [|done].
        replace (j - k) with (S (j - S k)) by lia. done.
    + destruct (IH (S k) (append_log part s) (l0 ++ [part])) as [-> ->].
      { unfold append_log. simpl. by rewrite Hl. }
      split; [|done]. by rewrite <- app_assoc.
Qed.

Lemma stream_log (w : world) (lines : list str) :
  ∀ (i : nat) (s : state) (l0 : list str),
    log_file s = Some l0 →
    log_file (stream w i lines s).2 =
    Some (l0 ++ take (match fault w with
                      | Some (Stream j, _) =>
                          if decide (i ≤ j) then j - i else length lines
                      | _ => length lines
                      end) lines)
    ∧ terminated (stream w i lines s).2 = terminated s.
Proof.
  induction lines as [|line rest IH]; intros i s l0 Hl; simpl.
  - rewrite take_nil, app_nil_r. done.
  - unfold at_stage.
    destruct (fault w) as [[st e]|] eqn:Ef.
    + destruct (decide (Stream i = st)) as [<-|Hne]; simpl.
      * rewrite decide_True by done. rewrite Nat.sub_diag, take_0, app_nil_r.
        done.
      * destruct (IH (S i) (append_log line s) (l0 ++ [line])) as [-> ->].
        { unfold append_log. simpl. by rewrite Hl. }
        split; [|done]. f_equal. rewrite <- app_assoc. f_equal. simpl.
        destruct st as [| | |j|j| |]; try done.
        assert (i ≠ j) by congruence.
        destruct (decide (i ≤ j)), (decide (S i ≤ j)); try lia; [|done].
        replace (j - i) with (S (j - S i)) by lia. done.
    + destruct (IH (S i) (append_log line s) (l0 ++ [line])) as [-> ->].
      { unfold append_log. simpl. by rewrite Hl. }
      split; [|done]. by rewrite <- app_assoc.
Qed.




Lemma try_body_not_terminated (w : world) :
  terminated (try_body w initial).2 = false.
Proof.
  unfold try_body.
  destruct (at_stage w Chdir); [|done].
  destruct (at_stage w Popen); [|done].
  destruct (at_stage w OpenLog); [|done]. simpl.
  match goal with
  | |- context [write_header w 0 ?l ?s0] =>
      destruct (write_header_log w l 0 s0 [] eq_refl) as [Hl0 Ht0];
      destruct (write_header w 0 l s0) as [[[]|?] s1]
  end; simpl in *; [|done].
  destruct (stream_log w (child_output w) 0 s1 _ Hl0) as [_ Ht].
  destruct (stream w 0 (child_output w) s1) as [[[]|?] s2];
    simpl in *; [|congruence].
  destruct (at_stage w Wait); [|simpl; congruence].
  destruct (child_returncode w =? 0)%Z; simpl; congruence.
Qed.

(** X10. The child is sent [terminate] only on the operator's interrupt,
    and then only if it was started.  After any other failure inside the
    [try] block (a log that cannot be opened or written, a failing [wait])
    the function returns [False] and leaves the child running. *)
Theorem launcher_terminates_child_iff :
  ∀ w : world,
    terminated (start_maximum_quality_training w).2 = true ↔
    ∃ st, fault w = Some (st, KeyboardInterrupt) ∧ fault_reached w ∧
          st ≠ Chdir ∧ st ≠ Popen.
Proof.
  intros w. pose proof (try_body_not_terminated w) as Hnt.
  unfold start_maximum_quality_training.
  destruct (try_body_cases w)
    as [(s & E & Hn)|(e & s & st & E & Hf & Hr & Hpb)]; rewrite E in *;
    simpl in *.
  - rewrite Hnt. split; [done|]. intros (st & Hf & Hr & _). done.
  - destruct e as [|e]; simpl.
    + unfold terminate. destruct (process_bound s) eqn:Epb; simpl.
      * split; [|done]. intros _. exists st. split_and!; try done.
        -- intros ->. by pose proof (proj2 Hpb (or_introl eq_refl)).
        -- intros ->. by pose proof (proj2 Hpb (or_intror eq_refl)).
      * rewrite Hnt. split; [done|]. intros (st' & Hf' & _ & H1 & H2).
        rewrite Hf in Hf'. injection Hf' as <-.
        destruct (proj1 Hpb eq_refl); done.
    + rewrite Hnt. split; [done|]. intros (st' & Hf' & _).
      rewrite Hf in Hf'. done.
Qed.

(** X11. The launcher script exits with status 0 exactly when the three
    checks return [True], starting TensorBoard does not raise, no exception
    is met while the child runs, and the child's exit code is 0. *)
Theorem launcher_script_succeeds_iff :
  ∀ (c : checks) (w : world),
    script c w = 0%Z ↔
    validate_environment c = Return true ∧
    validate_training_data c = Return true ∧
    setup_training_directories c = Return true ∧
    (∃ b, start_tensorboard c = Return b) ∧
    child_returncode w = 0%Z ∧ ¬ fault_reached w.
Proof.
  intros c w. rewrite launcher_exit_status.
  rewrite <- launcher_returns_true_iff. unfold main.
  destruct (validate_environment c) as [[]|e1]; simpl;
    [|split; [done|intros (? & _); done]..].
  destruct (validate_training_data c) as [[]|e2]; simpl;
    [|split; [done|intros (_ & ? & _); done]..].
  destruct (setup_training_directories c) as [[]|e3]; simpl;
    [|split; [done|intros (_ & _ & ? & _); done]..].
  destruct (start_tensorboard c) as [b|e4]; simpl.
  - split; [intros ->; split_and!; by eauto|]. by intros (_ & _ & _ & _ & ?).
  - split; [done|]. intros (_ & _ & _ & [b ?] & _). done.
Qed.

End LauncherFacts.

(** ** More on the Inference Driver *)

Section InferenceToolsFacts.
Import InferenceTools.
Context `{UnicodeDB} `{UnicodeCase}.

Lemma interact_spec (api : Inference.TTS_api) (inputs : list str) :
  ∀ (counter call : nat) (saved : list nat),
    ∃ k, (interact api counter call inputs saved).2 = saved ++ seq counter k
       ∧ k ≤ length inputs
       ∧ ((interact api counter call inputs saved).1 = true ↔
          ∃ line, line ∈ inputs ∧ is_quit (PyStr.strip line) = true).
Proof.
  induction inputs as [|line rest IH]; intros counter call saved; simpl.
  - exists 0. rewrite app_nil_r. split_and!; [done|done|].
    split; [done|]. intros (? & ?%not_elem_of_nil & _). done.
  - destruct (is_quit (PyStr.strip line)) eqn:Eq; simpl.
    { exists 0. rewrite app_nil_r. split_and!; [done|lia|].
      split; [|done]. intros _. exists line. split; [by left|done]. }
    assert (∀ P : Prop,
              (P ↔ ∃ l, l ∈ rest ∧ is_quit (PyStr.strip l) = true) →
              (P ↔ ∃ l, l ∈ line :: rest ∧ is_quit (PyStr.strip l) = true))
      as Hq.
    { intros P ->. split.
      - intros (l & ? & ?). exists l. split; [by right|done].
      - intros (l & [->|?]%elem_of_cons & Hl); [congruence|by eauto]. }
    case_bool_decide.
    + destruct (IH counter call saved) as (k & -> & Hk & Hi).
      exists k. split_and!; [done|lia|by apply Hq].
    + destruct (Inference.tts_to_file api call (PyStr.strip line)).
      * destruct (IH (S counter) (S call) (saved ++ [counter]))
          as (k & -> & Hk & Hi).
        exists (S k). split_and!; [|lia|by apply Hq].
        rewrite <- app_assoc. done.
      * destruct (IH counter (S call) saved) as (k & -> & Hk & Hi).
        exists k. split_and!; [done|lia|by apply Hq].
Qed.

(** X12. In the interactive mode the output files are numbered 1, 2, 3, ...
    without gap, whatever synthesis fails in between (a failed text does
    not use up a number); and the function returns [True] exactly when the
    model was loaded, the output directory could be made and the operator
    typed [quit], [exit] or [q], in any case, before the input ended. *)
Theorem interactive_numbering :
  ∀ (api : Inference.TTS_api) (makedirs : outcome unit) (inputs : list str),
    let r := interactive_testing api makedirs inputs in
    r.2 = seq 1 (length r.2)
    ∧ length r.2 ≤ length inputs
    ∧ (r.1 = true ↔
       Inference.import_TTS api = true ∧ Inference.TTS_init api = Ok () ∧
       makedirs = Ok () ∧
       ∃ line, line ∈ inputs ∧ is_quit (PyStr.strip line) = true).
Proof.
  intros api makedirs inputs r. subst r. unfold interactive_testing.
  destruct (Inference.import_TTS api); simpl.
  2:{ split_and!; [done|lia|]. split; [done|]. intros (? & _). done. }
  destruct (Inference.TTS_init api) as [[]|e]; simpl.
  2:{ split_and!; [done|lia|]. split; [done|]. intros (_ & ? & _). done. }
  destruct makedirs as [[]|e]; simpl.
  2:{ split_and!; [done|lia|]. split; [done|]. intros (_ & _ & ? & _). done. }
  destruct (interact_spec api inputs 1 1 []) as (k & -> & Hk & Hi).
  simpl. rewrite length_seq. split_and!; [done|done|].
  rewrite Hi. tauto.
Qed.

(** X13. Every text that [batch_synthesize] hands to the synthesizer is
    not empty and has no space at either end.  A line is skipped as a
    comment only if its very first character is [#]: a line that starts
    with a space is kept, also when its text starts with [#]. *)
Theorem read_texts_kept :
  ∀ file_lines : list str,
    (∀ text, text ∈ Inference.read_texts file_lines →
             text ≠ [] ∧ PyStr.strip text = text ∧
             ∃ line, line ∈ file_lines ∧ text = PyStr.strip line ∧
                     PyStr.startswith (py "#") line = false)
    ∧ (∀ line, line ∈ file_lines → PyStr.strip line ≠ [] →
               PyStr.lstrip line ≠ line →
               PyStr.strip line ∈ Inference.read_texts file_lines).
Proof.
  intros file_lines. unfold Inference.read_texts. split.
  - intros text (line & -> & [[Hne Hs] Hin]%list_elem_of_filter)%list_elem_of_fmap.
    split_and!; [done|apply strip_idempotent|by eauto].
  - intros line Hin Hne Hl. apply list_elem_of_fmap. exists line.
    split; [done|]. apply list_elem_of_filter. split; [|done].
    split; [done|]. destruct line as [|c line]; [done|].
    change (py "#") with [35%N]. cbn [PyStr.startswith].
    destruct (N.eqb_spec 35 c) as [<-|]; [|done].
    exfalso. apply Hl. by apply lstrip_cons_fixed.
Qed.

Lemma foldl_later_max (cs : list (str * Q)) :
  ∀ c : str * Q,
    let b := foldl later c cs in
    b ∈ c :: cs ∧ (c.2 <= b.2)%Q ∧ ∀ x, x ∈ cs → (x.2 <= b.2)%Q.
Proof.
  induction cs as [|x cs IH]; intros c; simpl.
  - split_and!; [by left|apply Qle_refl|].
    intros x Hx. by apply not_elem_of_nil in Hx.
  - destruct (IH (later c x)) as (Hin & Hle & Hall).
    assert ((c.2 <= (later c x).2)%Q ∧ (x.2 <= (later c x).2)%Q ∧
            (later c x = c ∨ later c x = x)) as (Hc & Hx & Hor).
    { unfold later. destruct (Qlt_le_dec c.2 x.2); simpl.
      - split_and!; [by apply Qlt_le_weak|apply Qle_refl|by right].
      - split_and!; [apply Qle_refl|done|by left]. }
    split_and!.
    + apply elem_of_cons in Hin as [->|Hin].
      * destruct Hor as [->| ->]; [by left|right; by left].
      * right; by right.
    + by eapply Qle_trans.
    + intros y [->|Hy]%elem_of_cons; [by eapply Qle_trans|by apply Hall].
Qed.

(** X14. [find_best_checkpoint] returns nothing exactly when the output
    directory is missing or holds no checkpoint; otherwise it returns a
    checkpoint that no other checkpoint was modified after (the "best"
    checkpoint is the latest one). *)
Theorem find_best_checkpoint_latest :
  ∀ training_output : option (list (str * Q)),
    (find_best_checkpoint training_output = None ↔
     training_output = None ∨ training_output = Some [])
    ∧ (∀ p, find_best_checkpoint training_output = Some p →
            ∃ files t, training_output = Some files ∧ (p, t) ∈ files ∧
                       ∀ x, x ∈ files → (x.2 <= t)%Q).
Proof.
  intros [[|c cs]|]; simpl.
  - split; [split; auto|done].
  - destruct (foldl_later_max cs c) as (Hin & Hc & Hall). split.
    + split; [done|]. intros [?|?]; done.
    + intros p [= <-]. exists (c :: cs), (foldl later c cs).2.
      split_and!; [done|by destruct (foldl later c cs)|].
      intros x [->|Hx]%elem_of_cons; [done|by apply Hall].
  - split; [split; auto|done].
Qed.

End InferenceToolsFacts.

(** ** More on the Training Monitor *)

Section MonitorMore.
Import Monitor MonitorStatus.
Context `{UnicodeDB}.

Lemma touches_only_eval {A} keys (o : outcome A) : touches_only keys (eval o).
Proof. by intros m k. Qed.

Lemma touches_only_ret {A} keys (a : A) : touches_only keys (mret a).
Proof. by intros m k. Qed.

Lemma touches_only_assign keys key value :
  key ∈ keys → touches_only keys (assign key value).
Proof.
  intros Hin m k Hk. unfold assign; simpl.
  rewrite lookup_insert_ne; [done|]. intros ->. done.
Qed.

Lemma touches_only_bind {A B} keys (c : stmt A) (k : A → stmt B) :
  touches_only keys c → (∀ a, touches_only keys (k a)) →
  touches_only keys (c ≫= k).
Proof.
  intros Hc Hk m key Hin. unfold mbind, stmt_bind.
  specialize (Hc m key Hin).
  destruct (c m) as [[a|e] m']; simpl in *; [|done].
  by rewrite Hk.
Qed.

Ltac touches_only :=
  repeat first
    [ apply touches_only_bind; [|intros ?]
    | apply touches_only_eval
    | apply touches_only_ret
    | apply touches_only_assign; set_solver
    | match goal with
      | |- touches_only _ (if ?b then _ else _) => destruct b
      | |- touches_only _ (let '(_, _) := ?p in _) => destruct p
      | |- touches_only _ (match ?p with (_, _) => _ end) => destruct p
      end ].

Lemma blocks_touch_only (line : str) :
  touches_only ["epoch"%string] (epoch_block line)
  ∧ touches_only ["step"; "total_steps"; "global_step"]%string
                 (step_block line)
  ∧ touches_only ["loss"; "lr"; "step_time"; "grad_norm"]%string
                 (metric_block line)
  ∧ touches_only ["last_update"%string] (training_block line).
Proof.
  unfold epoch_block, step_block, metric_block, training_block.
  split_and!; touches_only.
Qed.

(** X15. Which lines can change which fields.  A line changes a field
    only if it is of the kind that carries the field: [epoch] needs
    [EPOCH:]; [step], [total_steps] and [global_step] need [-- GLOBAL_STEP:]
    and no [EPOCH:]; [loss], [lr], [step_time] and [grad_norm] need [| >];
    [last_update] needs [TRAINING (]; and no line changes any other key.
    So the returned dictionary has the eight fields and at most the key
    [global_step] beside them. *)
Theorem monitor_fields_by_line_kind :
  ∀ (log_content line : str) (m : gmap string str) (k : string),
    (process_line line m !! k ≠ m !! k →
     let l := PyStr.strip line in
     (k = "epoch"%string ∧ PyStr.contains (py "EPOCH:") l = true)
     ∨ (k ∈ ["step"; "total_steps"; "global_step"]%string ∧
        PyStr.contains (py "EPOCH:") l = false ∧
        PyStr.contains (py "-- GLOBAL_STEP:") l = true)
     ∨ (k ∈ ["loss"; "lr"; "step_time"; "grad_norm"]%string ∧
        PyStr.contains (py "EPOCH:") l = false ∧
        PyStr.contains (py "-- GLOBAL_STEP:") l = false ∧
        PyStr.contains (py "| >") l = true)
     ∨ (k = "last_update"%string ∧
        PyStr.contains (py "EPOCH:") l = false ∧
        PyStr.contains (py "-- GLOBAL_STEP:") l = false ∧
        PyStr.contains (py "TRAINING (") l = true))
    ∧ (is_Some (parse_training_metrics log_content !! k) →
       k ∈ fields ∨ k = "global_step"%string).
Proof.
  intros log_content line m k. split.
  - destruct (blocks_touch_only (PyStr.strip line)) as (T1 & T2 & T3 & T4).
    intros Hne. cbv zeta. unfold process_line, try_except_pass in Hne.
    destruct (PyStr.contains (py "EPOCH:") (PyStr.strip line)).
    { left. split; [|done].
      destruct (decide (k = "epoch"%string)) as [|Hk]; [done|].
      exfalso. apply Hne, T1. set_solver. }
    destruct (PyStr.contains (py "-- GLOBAL_STEP:") (PyStr.strip line)).
    { right; left. split; [|done].
      destruct (decide (k ∈ ["step"; "total_steps"; "global_step"]%string))
        as [|Hk]; [done|].
      exfalso. by apply Hne, T2. }
    destruct (PyStr.contains (py "| >") (PyStr.strip line)) eqn:E3; simpl in *.
    { destruct (PyStr.contains (py ":") (PyStr.strip line)).
      - right; right; left. split; [|done].
        destruct (decide (k ∈ ["loss"; "lr"; "step_time"; "grad_norm"]%string))
          as [|Hk]; [done|].
        exfalso. by apply Hne, T3.
      - simpl in *.
        destruct (PyStr.contains (py "TRAINING (") (PyStr.strip line));
          [|done].
        right; right; right. split; [|done].
        destruct (decide (k = "last_update"%string)) as [|Hk]; [done|].
        exfalso. apply Hne, T4. set_solver. }
    destruct (PyStr.contains (py "TRAINING (") (PyStr.strip line)); [|done].
    right; right; right. split; [|done].
    destruct (decide (k = "last_update"%string)) as [|Hk]; [done|].
    exfalso. apply Hne, T4. set_solver.
  - unfold parse_training_metrics.
    destruct (decide (k ∈ fields ∨ k = "global_step"%string)) as [|Hk];
      [done|].
    intros [v Hv]. exfalso.
    rewrite parse_frame in Hv.
    + unfold initial_metrics in Hv.
      rewrite not_elem_of_list_to_map_1 in Hv; [done|].
      intros Hin. apply Hk. left. rewrite <- list_fmap_compose in Hin.
      by rewrite list_fmap_id in Hin.
    + intros l m0 _.
      destruct (blocks_touch_only (PyStr.strip l)) as (T1 & T2 & T3 & T4).
      unfold process_line, try_except_pass.
      assert ((k ∉ ["epoch"%string]) ∧
              (k ∉ ["step"; "total_steps"; "global_step"]%string) ∧
              (k ∉ ["loss"; "lr"; "step_time"; "grad_norm"]%string) ∧
              k ∉ ["last_update"%string]) as (K1 & K2 & K3 & K4).
      { unfold fields in Hk. set_solver. }
      repeat case_match; auto.
Qed.

End MonitorMore.

Section MonitorStatusFacts.
Import Monitor MonitorStatus.
Context `{UnicodeDB}.

Lemma scan_logs_spec (mtime : string → option Q) (files : list string) :
  ∀ (ll : option string) (lt : Q),
    let r := scan_logs mtime files ll lt in
    (lt <= r.2)%Q
    ∧ (∀ f t, f ∈ files → mtime f = Some t → (t <= r.2)%Q)
    ∧ (r = (ll, lt) ∨
       ∃ f, f ∈ files ∧ r.1 = Some f ∧ mtime f = Some r.2 ∧ (lt < r.2)%Q).
Proof.
  induction files as [|f fs IH]; intros ll lt; simpl.
  - split_and!; [apply Qle_refl| |by left].
    intros f t Hf. by apply not_elem_of_nil in Hf.
  - destruct (mtime f) as [t|] eqn:Em.
    + destruct (Qlt_le_dec lt t) as [Hlt|Hle].
      * destruct (IH (Some f) t) as (H1 & H2 & H3). split_and!.
        -- eapply Qle_trans; [by apply Qlt_le_weak|done].
        -- intros g t' [->|Hg]%elem_of_cons Hm; [|by eapply H2].
           rewrite Em in Hm. by injection Hm as <-.
        -- right. destruct H3 as [->|(g & Hg & E1 & E2 & E3)].
           ++ exists f. split_and!; [by left|done|done|done].
           ++ exists g. split_and!; [by right|done|done|].
              by eapply Qlt_trans.
      * destruct (IH ll lt) as (H1 & H2 & H3). split_and!; [done| |].
        -- intros g t' [->|Hg]%elem_of_cons Hm; [|by eapply H2].
           rewrite Em in Hm. injection Hm as <-. by eapply Qle_trans.
        -- destruct H3 as [->|(g & Hg & E1 & E2 & E3)]; [by left|].
           right. exists g. split_and!; [by right|done..].
    + destruct (IH ll lt) as (H1 & H2 & H3). split_and!; [done| |].
      * intros g t' [->|Hg]%elem_of_cons Hm; [congruence|by eapply H2].
      * destruct H3 as [->|(g & Hg & E1 & E2 & E3)]; [by left|].
        right. exists g. split_and!; [by right|done..].
Qed.

(** X16. The log file that the monitor reads is one of the six known files,
    it exists, and none of them was modified after it.  No file is chosen
    ("No log file found yet...") exactly when none of the six exists with
    a modification time after the epoch: a file whose time is 0 or less
    is passed over. *)
Theorem latest_log_is_latest :
  ∀ mtime : string → option Q,
    (latest_log mtime = None ↔
     ∀ f t, f ∈ log_files → mtime f = Some t → (t <= 0)%Q)
    ∧ (∀ f, latest_log mtime = Some f →
            f ∈ log_files ∧
            ∃ t, mtime f = Some t ∧ (0 < t)%Q ∧
                 ∀ g t', g ∈ log_files → mtime g = Some t' → (t' <= t)%Q).
Proof.
  intros mtime. unfold latest_log.
  destruct (scan_logs_spec mtime log_files None 0%Q) as (H1 & H2 & H3).
  split.
  - split.
    + intros Hn f t Hf Hm.
      destruct H3 as [E|(g & _ & E & _)]; [|by rewrite E in Hn].
      specialize (H2 f t Hf Hm). by rewrite E in H2.
    + intros Hall. destruct H3 as [E|(g & Hg & E1 & E2 & E3)];
        [by rewrite E|].
      specialize (Hall g _ Hg E2). exfalso.
      by eapply Qlt_not_le.
  - intros f Hf. destruct H3 as [E|(g & Hg & E1 & E2 & E3)];
      [by rewrite E in Hf|].
    rewrite E1 in Hf. injection Hf as <-. split; [done|].
    eexists. split_and!; [done|done|]. intros g' t'. apply H2.
Qed.

(** X17. The report on the first training process raises [IndexError],
    which nothing in the monitor's loop catches, exactly when the process
    is reported as running and the first line found has exactly three
    fields: the test [len(parts) >= 3] guards [parts[2]] but not
    [parts[3]].  With four fields or more the third and the fourth are
    shown. *)
Theorem process_usage_index_error :
  ∀ (is_running : bool) (process_lines : list str),
    ((∃ e, process_usage is_running process_lines = Fails e) ↔
     is_running = true ∧
     ∃ first rest, process_lines = first :: rest ∧
                   length (PyStr.split_ws first) = 3)
    ∧ (∀ e, process_usage is_running process_lines = Fails e →
            e = IndexError)
    ∧ (∀ first rest, is_running = true → process_lines = first :: rest →
                     4 ≤ length (PyStr.split_ws first) →
                     ∃ cpu mem,
                       PyStr.split_ws first !! 2 = Some cpu ∧
                       PyStr.split_ws first !! 3 = Some mem ∧
                       process_usage is_running process_lines
                       = Ok (Some (cpu, mem))).
Proof.
  intros is_running process_lines. unfold process_usage, PyStr.index.
  destruct is_running; simpl.
  2:{ split_and!; try done. split; [intros [? ?]; done|intros [? _]; done]. }
  destruct process_lines as [|first rest]; simpl.
  { split_and!; try done.
    split; [intros [? ?]; done|intros [_ (? & ? & ? & _)]; done]. }
  destruct (PyStr.split_ws first) as [|p0 [|p1 [|p2 [|p3 ps]]]] eqn:E; simpl.
  1-3: split_and!;
    [split; [intros [? ?]; done|];
     intros [_ (f & r & [= <- <-] & Hl)]; rewrite E in Hl; done
    |done
    |intros f r _ [= <- <-] Hl; rewrite E in Hl; simpl in Hl; lia].
  - split_and!.
    + split; [|by eexists]. intros _. split; [done|].
      exists first, rest. by rewrite E.
    + by intros e [= <-].
    + intros f r _ [= <- <-] Hl. rewrite E in Hl. simpl in Hl. lia.
  - split_and!; [|done|].
    + split; [intros [? ?]; done|]. intros [_ (f & r & [= <- <-] & Hl)].
      rewrite E in Hl. done.
    + intros f r _ [= <- <-] _. rewrite E. by eexists _, _.
Qed.

Lemma leb_refl' (s : str) : PyStr.le s s.
Proof. apply leb_refl. Qed.

(** X18. The "latest" run directory and the "latest" checkpoint of the
    files report are the names that come last in the order of the code
    points, not in the order of time or of the step number: the name
    returned is one of the names and none of them is greater. *)
Theorem latest_name_is_greatest :
  ∀ names : list str,
    (latest_name names = None ↔ names = [])
    ∧ (∀ x, latest_name names = Some x →
            x ∈ names ∧ ∀ y, y ∈ names → PyStr.le y x).
Proof.
  intros names. unfold latest_name.
  pose proof (merge_sort_Permutation PyStr.le names) as Hp.
  fold (sorted names) in Hp. split.
  - rewrite last_None. split.
    + intros E. rewrite E in Hp. by apply Permutation_nil_l in Hp.
    + intros ->. done.
  - intros x [l' E]%last_Some.
    pose proof (StronglySorted_merge_sort PyStr.le names) as Hs.
    fold (sorted names) in Hs. rewrite E in Hs, Hp. split.
    + rewrite <- Hp. set_solver.
    + intros y Hy. rewrite <- Hp in Hy.
      apply elem_of_app in Hy as [Hy|Hy].
      * eapply StronglySorted_app_1_elem_of; [done|done|by left].
      * apply list_elem_of_singleton in Hy as ->. apply leb_refl'.
Qed.

End MonitorStatusFacts.

Example latest_checkpoint_example :
  MonitorStatus.latest_name
    [py "checkpoint_10000.pth"; py "checkpoint_9000.pth";
     py "checkpoint_2000.pth"]
  = Some (py "checkpoint_9000.pth").
Proof. vm_compute. reflexivity. Qed.

Section MonitorIncremental.
Import Monitor.
Context `{UnicodeDB}.
Local Open Scope N_scope.

Lemma split_char_app_any (c : N) (a b : str) :
  PyStr.split [c] (a ++ c :: b) = PyStr.split [c] a ++ PyStr.split [c] b.
Proof.
  unfold PyStr.split. induction a as [|x a IH]; simpl.
  - rewrite N.eqb_refl. simpl. by destruct (PyStr.split_go [c] 0 b).
  - destruct (PyStr.split_go [c] 0 (a ++ c :: b)) as [p ps].
    destruct (PyStr.split_go [c] 0 a) as [pa psa].
    destruct (PyStr.split_go [c] 0 b) as [pb psb].
    simpl in IH. injection IH as -> ->.
    destruct (c =? x); done.
Qed.

(** X19. The metrics of a log are those of its first part, updated by the
    lines of the rest: parsing can be resumed at any line break. *)
Theorem monitor_parse_incremental :
  ∀ first_part rest : str,
    parse_training_metrics (first_part ++ [10] ++ rest) =
    foldl (fun metrics line => process_line line metrics)
          (parse_training_metrics first_part) (PyStr.split [10] rest).
Proof.
  intros a b. unfold parse_training_metrics.
  change (a ++ [10] ++ b) with (a ++ 10 :: b).
  by rewrite split_char_app_any, foldl_app.
Qed.

Lemma lstrip_spaces_app (sp s : str) :
  Forall (fun c => PyStr.isspace c = true) sp →
  PyStr.lstrip (sp ++ s) = PyStr.lstrip s.
Proof. induction 1 as [|c sp Hc _ IH]; simpl; [done|]. by rewrite Hc. Qed.

Lemma strip_padded (sp1 sp2 s : str) :
  Forall (fun c => PyStr.isspace c = true) sp1 →
  Forall (fun c => PyStr.isspace c = true) sp2 →
  PyStr.strip (sp1 ++ s ++ sp2) = PyStr.strip s.
Proof.
  intros H1. revert s.
  induction sp2 as [|c sp2 IH] using rev_ind; intros s H2.
  - rewrite app_nil_r. unfold PyStr.strip. by rewrite lstrip_spaces_app.
  - apply Forall_app in H2 as [H2 Hc]. apply Forall_inv in Hc.
    rewrite !app_assoc. rewrite strip_snoc_space by done.
    rewrite <- app_assoc. by apply IH.
Qed.

(** X20. A line is read without regard to the spaces around it: indenting
    it or adding spaces at its end changes nothing, and a line of spaces
    only changes no field. *)
Theorem monitor_line_indentation :
  ∀ (sp1 line sp2 : str) (m : gmap string str),
    Forall (fun c => PyStr.isspace c = true) sp1 →
    Forall (fun c => PyStr.isspace c = true) sp2 →
    process_line (sp1 ++ line ++ sp2) m = process_line line m
    ∧ process_line (sp1 ++ sp2) m = m.
Proof.
  intros sp1 line sp2 m H1 H2. unfold process_line.
  rewrite strip_padded by done. split; [done|].
  rewrite <- (app_nil_l sp2), strip_padded by done. reflexivity.
Qed.

End MonitorIncremental.

Lemma monitor_line_indentation_witness :
  @Monitor.process_line ascii_db (py "   " ++ py "| > loss: 0.25" ++ py " ")
     Monitor.initial_metrics
  = @Monitor.process_line ascii_db (py "| > loss: 0.25")
      Monitor.initial_metrics
  ∧ @Monitor.process_line ascii_db (py "   " ++ py " ")
      Monitor.initial_metrics = Monitor.initial_metrics.
Proof.
  apply (@monitor_line_indentation ascii_db);
    repeat constructor.
Defined.

(** ** More on the Audio Preprocessor *)

Section PreprocessorMore.
Context {audio sample : Type} `{AudioLib audio sample}.

Lemma process_files_write_list (files : list str) :
  ∀ s, sf_write_calls (process_files files s) =
       sf_write_calls s ++
       omap (fun name => match prepare name with
                         | Ok a => Some (name, a, target_sample_rate)
                         | Fails _ => None
                         end) files.
Proof.
  unfold process_files.
  induction files as [|f fs IH]; intros s; simpl.
  - by rewrite app_nil_r.
  - rewrite IH, process_file_writes, <- app_assoc.
    by destruct (prepare f).
Qed.

Lemma written_names_sublist (files : list str) :
  (fun c : str * audio * N => c.1.1) <$>
    omap (fun name => match prepare name with
                      | Ok a => Some (name, a, target_sample_rate)
                      | Fails _ => None
                      end) files
  `sublist_of` files.
Proof.
  induction files as [|f fs IH]; simpl; [constructor|].
  destruct (prepare f); simpl; by constructor.
Qed.

Lemma sublist_StronglySorted {A} (R : relation A) (l k : list A) :
  l `sublist_of` k → StronglySorted R k → StronglySorted R l.
Proof.
  induction 1 as [|x l k Hs IH|x l k Hs IH]; intros Hk.
  - constructor.
  - apply StronglySorted_inv in Hk as [Hk Hx].
    constructor; [by apply IH|].
    rewrite Forall_forall in Hx |- *. intros y Hy. apply Hx.
    by eapply sublist_subseteq.
  - apply StronglySorted_inv in Hk as [Hk _]. by apply IH.
Qed.

(** X21. In a directory (no two entries of one name) [sf.write] is called
    once for each [.wav] file that the steps before it accept, on the
    prepared samples and at 22050 Hz, in the sorted order of the names, and
    for nothing else: no output file is written twice. *)
Theorem preprocessor_writes_in_order :
  ∀ raw_audio_dir : list str,
    NoDup raw_audio_dir →
    let audio_files := sorted (glob_wav raw_audio_dir) in
    let s := process_files audio_files initial in
    let names := (fun c : str * audio * N => c.1.1) <$> sf_write_calls s in
    sf_write_calls s =
      omap (fun name => match prepare name with
                        | Ok a => Some (name, a, target_sample_rate)
                        | Fails _ => None
                        end) audio_files
    ∧ names `sublist_of` audio_files
    ∧ StronglySorted PyStr.le names
    ∧ NoDup names.
Proof.
  intros raw_audio_dir Hnd audio_files s names. subst names s.
  rewrite process_files_write_list. simpl.
  pose proof (written_names_sublist audio_files) as Hsub.
  split_and!; [done|done| |].
  - apply (sublist_StronglySorted _ _ _ Hsub).
    apply StronglySorted_merge_sort; apply _.
  - refine (sublist_NoDup _ _ _ Hsub).
    unfold audio_files, sorted.
    rewrite merge_sort_Permutation. by apply NoDup_filter.
Qed.

End PreprocessorMore.

Lemma preprocessor_writes_in_order_witness :
  let audio_files := sorted (glob_wav [py "b.wav"; py "notes.txt"; py "a.wav"]) in
  let s := @process_files _ _ plain_lib audio_files initial in
  let names := (fun c : str * list Z * N => c.1.1) <$> sf_write_calls s in
  sf_write_calls s =
    omap (fun name => match @prepare _ _ plain_lib name with
                      | Ok a => Some (name, a, target_sample_rate)
                      | Fails _ => None
                      end) audio_files
  ∧ names `sublist_of` audio_files
  ∧ StronglySorted PyStr.le names
  ∧ NoDup names.
Proof.
  apply (@preprocessor_writes_in_order _ _ plain_lib
           [py "b.wav"; py "notes.txt"; py "a.wav"]).
  apply (bool_decide_unpack _). vm_compute. reflexivity.
Defined.
